(** * Preview/allowance accounting of the E-Music server (index.js, db.js)

    A shallow embedding of the request handlers of [index.js] that read or
    write the [users] table, with the helpers they call, followed by the
    properties of the preview/download gate and of the account upgrade flow.

    Conventions of the embedding.
    - The clock is [Date.now()/1000] rounded down, an integer number of
      seconds, passed to every handler as [now].
    - A signed token is carried as the record of what was signed and with
      which secret; a string that does not parse as a token is [Garbage].
    - The [previews] column holds [JSON.stringify] of an object used as a map
      from category name to count; the row carries that map, and a NULL or
      empty column is [None].
    - Request fields are strings or absent, counts are integers, and the
      comparison of an email with the [email] column is equality of strings.
    - Storage is assumed available: a statement sent to the pool does not
      come back with [err] set.
    - A handler is given twice: as one function of the stored state, which
      is the handler served with no other request in flight ([handle],
      [serve]), and as the sequence of its storage statements, between
      which the statements of other requests may run ([handle_steps],
      [step]). The first is the second run to its end.
    - An object parsed from the [previews] column is read and written as
      the map of its own properties. That is what [obj[k]] does for every
      key [k] that is not a member of [Object.prototype]
      ([Object_prototype_names]), among them the key [undefined]; where a
      property is stated for the row of an arbitrary song, the category of
      the row is taken outside that list. *)

From Stdlib Require Import ZArith String Sorted.
From stdpp Require Import base option gmap strings list.

Local Open Scope Z_scope.

(** ** Constants of index.js *)

Definition JWT_SECRET : string := "dev_secret_replace_me".
Definition ADMIN_SECRET : string := "admin_secret_demo".
Definition UPLOADS : string := "uploads".

(** [expiresIn: '10m'] and [expiresIn: '7d'], in seconds. *)
Definition TTL_10m : Z := 600.
Definition TTL_7d : Z := 604800.

(** ** Tokens (jsonwebtoken) *)

(** The payload handed to [jwt.sign], the secret it was signed with and the
    [exp] claim that [sign] adds. A field the payload does not have reads
    as [undefined], here [None]. *)
Record jwt := {
  jwt_email : option string;
  jwt_type : option string;
  jwt_admin : bool;
  jwt_key : string;
  jwt_exp : Z
}.

(** What arrives on the wire where a token is expected. *)
Inductive wire_token :=
| Garbage
| Signed (t : jwt).

(** [jwt.sign({ email, type }, secret, { expiresIn })] *)
Definition jwt_sign (email : option string) (type : string)
    (secret : string) (now expiresIn : Z) : jwt :=
  {| jwt_email := email; jwt_type := Some type; jwt_admin := false;
     jwt_key := secret; jwt_exp := now + expiresIn |}.

(** [jwt.sign({ admin: true }, secret, { expiresIn })] *)
Definition jwt_sign_admin (secret : string) (now expiresIn : Z) : jwt :=
  {| jwt_email := None; jwt_type := None; jwt_admin := true;
     jwt_key := secret; jwt_exp := now + expiresIn |}.

(** [jwt.verify(token, secret)]: the payload, or [None] where the library
    throws (malformed token, other secret, [now >= exp]). *)
Definition jwt_verify (token : wire_token) (secret : string) (now : Z)
    : option jwt :=
  match token with
  | Garbage => None
  | Signed t =>
      if bool_decide (jwt_key t = secret) && (now <? jwt_exp t)
      then Some t else None
  end.

(** JavaScript truthiness of a value that is a string or absent:
    [undefined], [null] and the empty string are falsy. *)
Definition truthy (v : option string) : bool :=
  match v with
  | Some s => negb (bool_decide (s = ""))
  | None => false
  end.

(** The string inside a value already tested truthy. *)
Definition str (v : option string) : string := default "" v.

(** ** Stored state *)

(** A row of [users]. *)
Record user_row := {
  passwordHash : option string;
  previews : option (gmap string Z)
}.

(** A row of [songs]. *)
Record song_row := {
  song_id : Z;
  title : string;
  category : string;
  filename : string
}.

(** The [users] table (its [email] column is a unique key), the [songs]
    table and the paths that exist on disk. *)
Record world := {
  users : gmap string user_row;
  songs : list song_row;
  files : gset string
}.

Definition set_users (us : gmap string user_row) (w : world) : world :=
  {| users := us; songs := songs w; files := files w |}.

(** ** Sequencing of storage effects *)

Definition M (A : Type) : Type := world → A * world.

Definition ret {A} (a : A) : M A := λ w, (a, w).

Definition bind {A B} (k : A → M B) (m : M A) : M B :=
  λ w, let (a, w') := m w in k a w'.

#[export] Instance M_ret : MRet M := @ret.
#[export] Instance M_bind : MBind M := @bind.

Definition gets {A} (f : world → A) : M A := λ w, (f w, w).

Definition modify (f : world → world) : M unit := λ w, (tt, f w).

(** ** Responses *)

(** Exceptions raised by the runtime inside a [try] block; the [catch]
    reports [e.message]. *)
Inductive js_error :=
| TypeError_path_not_string
| TypeError_property_of_undefined.

Inductive body :=
| Err (msg : string)
| Exn (e : js_error)
| OkTrue
| PreviewToken (t : jwt)
| Token (t : jwt)
| AudioStream (filePath : string)
| Attachment (filePath : string).

Record response := { status : Z; payload : body }.

(** [res.status(code).json({ error: msg })] *)
Definition error (code : Z) (msg : string) : response :=
  {| status := code; payload := Err msg |}.

(** [res.status(500).json({ error: e.message })] *)
Definition caught (e : js_error) : response :=
  {| status := 500; payload := Exn e |}.

(** [res.json(b)], [stream.pipe(res)]: status 200. *)
Definition ok (b : body) : response := {| status := 200; payload := b |}.

(** ** What the pool hands to a query callback

    [db] is a mysql2 pool (db.js). The second argument of the callback of
    [db.query] for a SELECT is the array of matching rows: the helpers below
    take [rows[0]] from it, and the category routes read [rows.length] and
    iterate over it. [JsObject] is a single row, the shape the handlers of
    the preview and download routes read fields from. *)
Inductive js_value :=
| JsUndefined
| JsArray (rows : list song_row)
| JsObject (row : song_row).

(** [!v] is false for every array (also the empty one) and every object. *)
Definition js_truthy (v : js_value) : bool :=
  match v with
  | JsUndefined => false
  | JsArray _ | JsObject _ => true
  end.

(** [v.category] and [v.filename]: an array has no property of either
    name, so the read yields [undefined]. *)
Definition js_category (v : js_value) : option string :=
  match v with
  | JsObject row => Some (category row)
  | JsArray _ | JsUndefined => None
  end.

Definition js_filename (v : js_value) : option string :=
  match v with
  | JsObject row => Some (filename row)
  | JsArray _ | JsUndefined => None
  end.

(** The property name under which [obj[k]] reads and writes. *)
Definition property_key (k : option string) : string :=
  match k with
  | Some s => s
  | None => "undefined"
  end.

(** The members of [Object.prototype]. For one of these names [obj[k]] on
    an object without an own property [k] reads the inherited member, not
    [undefined]; for every other name it reads the own property or
    [undefined]. *)
Definition Object_prototype_names : list string :=
  [ "constructor"; "__defineGetter__"; "__defineSetter__"; "hasOwnProperty";
    "__lookupGetter__"; "__lookupSetter__"; "isPrototypeOf";
    "propertyIsEnumerable"; "toString"; "valueOf"; "__proto__";
    "toLocaleString" ].

(** [path.join(dir, name)] throws a TypeError unless [name] is a string. *)
Definition path_join (dir : string) (name : option string)
    : js_error + string :=
  match name with
  | Some f => inr (dir +:+ "/" +:+ f)
  | None => inl TypeError_path_not_string
  end.

Definition existsSync (filePath : string) : M bool :=
  gets (λ w, bool_decide (filePath ∈ files w)).

(** ** Helper DB functions *)

(** [SELECT * FROM users WHERE email = ?], resolved with [rows[0]]. A
    parameter that is [undefined] is sent as NULL and matches no row. *)
Definition findUserByEmail (email : option string) : M (option user_row) :=
  gets (λ w, e ← email; users w !! e).

(** [INSERT IGNORE INTO users (email, previews) VALUES (?, '{}')] *)
Definition insert_ignore (email : string) (us : gmap string user_row)
    : gmap string user_row :=
  match us !! email with
  | Some _ => us
  | None => <[email := {| passwordHash := None; previews := Some ∅ |}]> us
  end.

Definition createUser (email : string) : M (option user_row) :=
  modify (λ w, set_users (insert_ignore email (users w)) w);;
  gets (λ w, users w !! email).

(** [UPDATE users SET previews = ? WHERE email = ?] *)
Definition updateUserPreviews (email : string) (previews : gmap string Z)
    : M unit :=
  modify (λ w, set_users
    (alter (λ u, {| passwordHash := passwordHash u;
                    previews := Some previews |}) email (users w)) w).

(** [UPDATE users SET passwordHash = ? WHERE email = ?] *)
Definition setUserPassword (email : option string) (hash : string) : M unit :=
  match email with
  | Some e =>
      modify (λ w, set_users
        (alter (λ u, {| passwordHash := Some hash;
                        previews := previews u |}) e (users w)) w)
  | None => mret tt
  end.

(** [SELECT * FROM songs WHERE id = ?] as the callback receives it. *)
Definition db_query_songs_by_id (songId : Z) : M js_value :=
  gets (λ w, JsArray (filter (λ s, song_id s = songId) (songs w))).

(** ** POST /api/request-preview *)

Definition api_request_preview (email : option string) (now : Z)
    : M response :=
  if negb (truthy email) then mret (error 400 "email required") else
  createUser (str email);;
  mret (ok (PreviewToken (jwt_sign email "preview" JWT_SECRET now TTL_10m))).

(** ** POST /api/pay *)

Definition api_pay (previewToken : option wire_token) (simulateFail : bool)
    (now : Z) : M response :=
  match previewToken with
  | None => mret (error 400 "previewToken required")
  | Some token =>
      match jwt_verify token JWT_SECRET now with
      | None => mret (error 401 "invalid or expired preview token")
      | Some _ =>
          if simulateFail then mret (error 402 "payment failed (simulated)")
          else mret (ok OkTrue)
      end
  end.

(** ** GET /api/preview/:id *)

(** Helper: accept either preview or user token. [None] stands for the
    header being absent or not starting with [Bearer ]. *)
Definition getEmailFromAuthHeader (authorization : option wire_token)
    (now : Z) : option string :=
  match authorization with
  | None => None
  | Some token =>
      match jwt_verify token JWT_SECRET now with
      | Some p => jwt_email p
      | None => None
      end
  end.

(** The callback of the song query. *)
Definition api_preview_cb (email : string) (err : bool) (song : js_value)
    : M response :=
  if err || negb (js_truthy song) then mret (error 404 "song not found") else
  user ← findUserByEmail (Some email);
  user ← (match user with
          | Some _ => mret user
          | None => createUser email;; findUserByEmail (Some email)
          end);
  match user with
  | None => mret (caught TypeError_property_of_undefined)
  | Some user =>
      let previews := match previews user with Some m => m | None => ∅ end in
      let count := default 0 (previews !! property_key (js_category song)) in
      if count >=? 5
      then mret (error 403 "preview limit reached for this category (5)")
      else
        updateUserPreviews email
          (<[property_key (js_category song) := count + 1]> previews);;
        match path_join UPLOADS (js_filename song) with
        | inl e => mret (caught e)
        | inr filePath =>
            found ← existsSync filePath;
            if negb found then mret (error 404 "file missing on server")
            else mret (ok (AudioStream filePath))
        end
  end.

Definition api_preview (authorization : option wire_token) (songId : Z)
    (now : Z) : M response :=
  let email := getEmailFromAuthHeader authorization now in
  if negb (truthy email)
  then mret (error 401 "authorization required (preview token or user token)")
  else song ← db_query_songs_by_id songId;
       api_preview_cb (str email) false song.

(** ** GET /api/download/:id *)

(** The middleware [verifyUserToken]: a response, or [next()] with
    [req.userEmail] set. *)
Definition verifyUserToken (authorization : option wire_token) (now : Z)
    : response + option string :=
  match authorization with
  | None => inl (error 401 "token required")
  | Some token =>
      match jwt_verify token JWT_SECRET now with
      | Some p =>
          if negb (bool_decide (jwt_type p = Some "user"))
          then inl (error 401 "invalid token type")
          else inr (jwt_email p)
      | None => inl (error 401 "invalid/expired token")
      end
  end.

(** The callback of the song query. *)
Definition api_download_cb (email : option string) (err : bool)
    (song : js_value) : M response :=
  if err || negb (js_truthy song) then mret (error 404 "song not found") else
  user ← findUserByEmail email;
  match user with
  | None => mret (error 403 "no access")
  | Some user =>
      match previews user with
      | None => mret (error 403 "no access")
      | Some previews =>
          let count :=
            default 0 (previews !! property_key (js_category song)) in
          if count <=? 0
          then mret (error 403
                 "no preview/download allowance left for this category")
          else
            match path_join UPLOADS (js_filename song) with
            | inl e => mret (caught e)
            | inr filePath =>
                found ← existsSync filePath;
                if negb found then mret (error 404 "file missing")
                else mret (ok (Attachment filePath))
            end
      end
  end.

Definition api_download (authorization : option wire_token) (songId : Z)
    (now : Z) : M response :=
  match verifyUserToken authorization now with
  | inl r => mret r
  | inr email =>
      song ← db_query_songs_by_id songId;
      api_download_cb email false song
  end.

(** ** Admin routes *)

(** POST /api/admin/login *)
Definition api_admin_login (username password : option string) (now : Z)
    : M response :=
  if bool_decide (username = Some "ravi")
     && bool_decide (password = Some "1234")
  then mret (ok (Token (jwt_sign_admin ADMIN_SECRET now TTL_7d)))
  else mret (error 401 "invalid admin credentials").

(** The middleware [verifyAdmin] on the [x-admin-token] header: a response,
    or [None] for [next()]. *)
Definition verifyAdmin (auth : option wire_token) (now : Z)
    : option response :=
  match auth with
  | None => Some (error 401 "admin token required")
  | Some token =>
      match jwt_verify token ADMIN_SECRET now with
      | Some _ => None
      | None => Some (error 401 "invalid admin token")
      end
  end.

(** DELETE /api/admin/categories/:name, as far as it touches the modelled
    state: the files of the category's songs are unlinked and the songs
    deleted. Its other statements address the [texts] and [categories]
    tables only. *)
Definition api_admin_delete_category (auth : option wire_token)
    (name : string) (now : Z) : M response :=
  match verifyAdmin auth now with
  | Some r => mret r
  | None =>
      if negb (truthy (Some name)) then mret (error 400 "name required") else
      rows ← gets (λ w, filter (λ s, category s = name) (songs w));
      modify (λ w, {| users := users w; songs := songs w;
                      files := files w ∖ list_to_set
                        ((λ r, UPLOADS +:+ "/" +:+ filename r) <$> rows) |});;
      modify (λ w, {| users := users w;
                      songs := filter (λ s, category s ≠ name) (songs w);
                      files := files w |});;
      mret (ok OkTrue)
  end.

(** ** Password hashing (bcryptjs)

    [hashSync password salt] and [compareSync password hash], with the two
    facts about them the account flow relies on: a password compares equal
    to every hash made from it, and a hash is a non-empty string. The salt
    drawn by [genSaltSync(8)] is an input of the handlers that hash. *)
Class Bcrypt := {
  hashSync : string → string → string;
  compareSync : string → string → bool;
  compareSync_hashSync :
    ∀ password salt, compareSync password (hashSync password salt) = true;
  hashSync_truthy : ∀ password salt, hashSync password salt ≠ ""
}.

(** The requests of the routes above. *)
Inductive request :=
| RequestPreview (email : option string)
| Pay (previewToken : option wire_token) (simulateFail : bool)
| SetPassword (previewToken : option wire_token) (password : option string)
    (salt : string)
| Login (email password : option string)
| Preview (authorization : option wire_token) (songId : Z)
| Download (authorization : option wire_token) (songId : Z)
| UserSetPassword (authorization : option wire_token)
    (password : option string) (salt : string)
| AdminLogin (username password : option string)
| AdminDeleteCategory (auth : option wire_token) (name : string).

Section Account.
Context `{Bcrypt}.

(** ** POST /api/set-password *)

Definition api_set_password (previewToken : option wire_token)
    (password : option string) (salt : string) (now : Z) : M response :=
  match previewToken with
  | None => mret (error 400 "missing fields")
  | Some token =>
      if negb (truthy password) then mret (error 400 "missing fields") else
      match jwt_verify token JWT_SECRET now with
      | None => mret (error 401 "invalid/expired token")
      | Some payload =>
          let email := jwt_email payload in
          let hash := hashSync (str password) salt in
          setUserPassword email hash;;
          mret (ok (Token (jwt_sign email "user" JWT_SECRET now TTL_7d)))
      end
  end.

(** ** POST /api/login *)

Definition api_login (email password : option string) (now : Z)
    : M response :=
  if negb (truthy email) || negb (truthy password)
  then mret (error 400 "missing fields") else
  user ← findUserByEmail email;
  match user with
  | None => mret (error 401 "no such user or password not set")
  | Some user =>
      if negb (truthy (passwordHash user))
      then mret (error 401 "no such user or password not set")
      else
        if negb (compareSync (str password) (str (passwordHash user)))
        then mret (error 401 "invalid credentials")
        else mret (ok (Token (jwt_sign email "user" JWT_SECRET now TTL_7d)))
  end.

(** ** POST /api/user/set-password *)

Definition api_user_set_password (authorization : option wire_token)
    (password : option string) (salt : string) (now : Z) : M response :=
  match verifyUserToken authorization now with
  | inl r => mret r
  | inr email =>
      if negb (truthy password) then mret (error 400 "password required") else
      let hash := hashSync (str password) salt in
      setUserPassword email hash;;
      mret (ok OkTrue)
  end.

(** ** The server: one request against the stored state *)

Definition handle (now : Z) (r : request) : M response :=
  match r with
  | RequestPreview email => api_request_preview email now
  | Pay previewToken simulateFail => api_pay previewToken simulateFail now
  | SetPassword previewToken password salt =>
      api_set_password previewToken password salt now
  | Login email password => api_login email password now
  | Preview authorization songId => api_preview authorization songId now
  | Download authorization songId => api_download authorization songId now
  | UserSetPassword authorization password salt =>
      api_user_set_password authorization password salt now
  | AdminLogin username password => api_admin_login username password now
  | AdminDeleteCategory auth name => api_admin_delete_category auth name now
  end.

(** The states the server can be in: it starts with no user row, and every
    later state is the result of a request. *)
Inductive reachable : world → Prop :=
| reachable_start w : users w = ∅ → reachable w
| reachable_handle w now r :
    reachable w → reachable (handle now r w).2.

(** A sequence of timed requests, served one after the other. *)
Fixpoint serve (rs : list (Z * request)) (w : world) : world :=
  match rs with
  | [] => w
  | (now, r) :: rs => serve rs (handle now r w).2
  end.

End Account.

(** ** Notions the properties are stated with *)

(** The stored preview count of a user in a category: the entry of the
    user's map, 0 where the row, the map or the entry is absent. *)
Definition count (w : world) (email category : string) : Z :=
  match users w !! email with
  | Some u =>
      match previews u with
      | Some m => default 0 (m !! category)
      | None => 0
      end
  | None => 0
  end.

(** The stored entry itself, [None] where the row, the map or the entry
    is absent. *)
Definition entry (w : world) (email category : string) : option Z :=
  u ← users w !! email; m ← previews u; m !! category.

(** The error kinds of the API and the status each is sent with. *)
Inductive error_kind :=
| ValidationError | AuthError | PaymentFailed | Forbidden | NotFound
| Unexpected.

Definition kind_of (r : response) : option error_kind :=
  if bool_decide (status r = 400) then Some ValidationError
  else if bool_decide (status r = 401) then Some AuthError
  else if bool_decide (status r = 402) then Some PaymentFailed
  else if bool_decide (status r = 403) then Some Forbidden
  else if bool_decide (status r = 404) then Some NotFound
  else if bool_decide (status r = 500) then Some Unexpected
  else None.

(** The token a request presents and the token a response carries. *)
Definition request_token (r : request) : option wire_token :=
  match r with
  | Pay token _ | SetPassword token _ _ | Preview token _
  | Download token _ | UserSetPassword token _ _
  | AdminDeleteCategory token _ => token
  | RequestPreview _ | Login _ _ | AdminLogin _ _ => None
  end.

Definition response_token (r : response) : option jwt :=
  match payload r with
  | PreviewToken t | Token t => Some t
  | _ => None
  end.

(** A token the server accepts at time [now]: signed with [JWT_SECRET] and
    not expired. *)
Definition valid_token (t : jwt) (now : Z) : Prop :=
  jwt_verify (Signed t) JWT_SECRET now = Some t.

(** Two songs of the seeded catalogue, a user, and a state in which she
    is the only user and has the given preview map. *)
Definition calm1 : song_row :=
  {| song_id := 1; title := "Calm Ambient"; category := "Calm";
     filename := "calm1.mp3" |}.

Definition happy1 : song_row :=
  {| song_id := 2; title := "Happy Loop"; category := "Happy";
     filename := "happy1.mp3" |}.

Definition alice : string := "a@x.com".

Definition world_of (m : gmap string Z) (fs : gset string) : world :=
  {| users := {[ alice := {| passwordHash := None; previews := Some m |} ]};
     songs := [calm1; happy1];
     files := fs |}.

Definition alice_preview_token : jwt :=
  jwt_sign (Some alice) "preview" JWT_SECRET 0 TTL_10m.

Definition alice_user_token : jwt :=
  jwt_sign (Some alice) "user" JWT_SECRET 0 TTL_7d.

(** A stand-in for bcryptjs with the two facts of [Bcrypt]: the hash is
    the salt, a dollar sign and the password. *)
Fixpoint ends_with (suffix s : string) : bool :=
  bool_decide (s = suffix) ||
  match s with
  | String _ s' => ends_with suffix s'
  | EmptyString => false
  end.

Definition sample_bcrypt : Bcrypt.
Proof.
  refine {| hashSync password salt := salt +:+ "$" +:+ password;
            compareSync password hash := ends_with ("$" +:+ password) hash |}.
  - intros password salt. induction salt as [|a salt IH]; simpl.
    + apply orb_true_iff; left. by apply bool_decide_eq_true_2.
    + simpl in IH. rewrite IH. apply orb_true_r.
  - intros password salt. destruct salt; discriminate.
Defined.

(** A server with no users yet, two songs in its catalogue and the given
    files on disk. *)
Definition catalogue (fs : gset string) : world :=
  {| users := ∅; songs := [calm1; happy1]; files := fs |}.

Definition start_world : world :=
  catalogue {[ "uploads/calm1.mp3"; "uploads/happy1.mp3" ]}.

(** Alice right after her preview request, and after five preview requests
    for song 1 that followed it. *)
Definition alice_fresh (fs : gset string) : world :=
  (api_request_preview (Some alice) 0 (catalogue fs)).2.

Definition alice_after_five : world :=
  Nat.iter 5
    (λ w, (api_preview (Some (Signed alice_preview_token)) 1 1 w).2)
    (alice_fresh {[ "uploads/calm1.mp3"; "uploads/happy1.mp3" ]}).

(** Alice asks for a preview token, previews a song and sets a password. *)
Definition alice_session : list (Z * request) :=
  [ (0, RequestPreview (Some alice));
    (1, Preview (Some (Signed alice_preview_token)) 1);
    (2, SetPassword (Some (Signed alice_preview_token)) (Some "pw") "salt") ].

(** The state her session leaves, and the user token its last request
    was answered with. *)
Definition alice_served : world :=
  @serve sample_bcrypt alice_session start_world.

Definition alice_issued_token : jwt :=
  jwt_sign (Some alice) "user" JWT_SECRET 2 TTL_7d.

(** The preview map of a row that may be absent:
    [user.previews ? JSON.parse(user.previews) : {}]. *)
Definition previews_or_empty (u : option user_row) : gmap string Z :=
  match u with
  | Some u => match previews u with Some m => m | None => ∅ end
  | None => ∅
  end.

(** The ways a request can change the [users] table: not at all, by the
    insert of [createUser], by the update of [setUserPassword], or by the
    update of [updateUserPreviews] as the preview route issues it, after
    the row was looked up or created and its count under [k] found below
    5. *)
Inductive users_change (us : gmap string user_row)
    : gmap string user_row → Prop :=
| change_none : users_change us us
| change_created e : e ≠ "" → users_change us (insert_ignore e us)
| change_password e hash :
    users_change us
      (alter (λ u, {| passwordHash := Some hash; previews := previews u |})
         e us)
| change_previewed e k :
    e ≠ "" →
    default 0 (previews_or_empty (insert_ignore e us !! e) !! k) < 5 →
    users_change us
      (alter (λ u, {| passwordHash := passwordHash u;
                      previews := Some
                        (<[k := default 0
                                 (previews_or_empty (insert_ignore e us !! e)
                                    !! k) + 1]>
                           (previews_or_empty (insert_ignore e us !! e))) |})
         e (insert_ignore e us)).


(** The preview maps the server writes: every row has one, and every
    stored entry lies between 1 and 5. *)
Definition previews_bounded (us : gmap string user_row) : Prop :=
  ∀ e u, us !! e = Some u →
         ∃ m, previews u = Some m ∧ ∀ c n, m !! c = Some n → 1 ≤ n ≤ 5.

(** ** Whose row a request acts on *)

(** The email a request acts for: the one in its body, or the one of the
    token it presents, as the handler of its route extracts it. *)
Definition request_email (now : Z) (r : request) : option string :=
  match r with
  | RequestPreview email => email
  | SetPassword (Some token) _ _ =>
      p ← jwt_verify token JWT_SECRET now; jwt_email p
  | Preview authorization _ => getEmailFromAuthHeader authorization now
  | UserSetPassword authorization _ _ =>
      match verifyUserToken authorization now with
      | inr email => email
      | inl _ => None
      end
  | _ => None
  end.

(** ** Cover images (unsplashPool.js) *)

Definition POOL : list (string * list string) :=
  [
    ("Happy",
     [ "https://picsum.photos/seed/happy-1/1600/900";
       "https://picsum.photos/seed/happy-2/1600/900";
       "https://picsum.photos/seed/happy-3/1600/900";
       "https://picsum.photos/seed/happy-4/1600/900";
       "https://picsum.photos/seed/happy-5/1600/900";
       "https://picsum.photos/seed/happy-6/1600/900" ]);
    ("Calm",
     [ "https://picsum.photos/seed/calm-1/1600/900";
       "https://picsum.photos/seed/calm-2/1600/900";
       "https://picsum.photos/seed/calm-3/1600/900";
       "https://picsum.photos/seed/calm-4/1600/900";
       "https://picsum.photos/seed/calm-5/1600/900";
       "https://picsum.photos/seed/calm-6/1600/900" ]);
    ("Cinematic",
     [ "https://picsum.photos/seed/cinematic-1/1600/900";
       "https://picsum.photos/seed/cinematic-2/1600/900";
       "https://picsum.photos/seed/cinematic-3/1600/900";
       "https://picsum.photos/seed/cinematic-4/1600/900";
       "https://picsum.photos/seed/cinematic-5/1600/900" ]);
    ("Relax",
     [ "https://picsum.photos/seed/relax-1/1600/900";
       "https://picsum.photos/seed/relax-2/1600/900";
       "https://picsum.photos/seed/relax-3/1600/900";
       "https://picsum.photos/seed/relax-4/1600/900" ]);
    ("Ambient",
     [ "https://picsum.photos/seed/ambient-1/1600/900";
       "https://picsum.photos/seed/ambient-2/1600/900";
       "https://picsum.photos/seed/ambient-3/1600/900";
       "https://picsum.photos/seed/ambient-4/1600/900" ]);
    ("Acoustic",
     [ "https://picsum.photos/seed/acoustic-1/1600/900";
       "https://picsum.photos/seed/acoustic-2/1600/900";
       "https://picsum.photos/seed/acoustic-3/1600/900";
       "https://picsum.photos/seed/acoustic-4/1600/900" ]);
    ("Electronic",
     [ "https://picsum.photos/seed/electronic-1/1600/900";
       "https://picsum.photos/seed/electronic-2/1600/900";
       "https://picsum.photos/seed/electronic-3/1600/900";
       "https://picsum.photos/seed/electronic-4/1600/900" ]);
    ("Piano",
     [ "https://picsum.photos/seed/piano-1/1600/900";
       "https://picsum.photos/seed/piano-2/1600/900";
       "https://picsum.photos/seed/piano-3/1600/900" ]);
    ("Jazz",
     [ "https://picsum.photos/seed/jazz-1/1600/900";
       "https://picsum.photos/seed/jazz-2/1600/900";
       "https://picsum.photos/seed/jazz-3/1600/900" ]);
    ("Lofi",
     [ "https://picsum.photos/seed/lofi-1/1600/900";
       "https://picsum.photos/seed/lofi-2/1600/900";
       "https://picsum.photos/seed/lofi-3/1600/900" ]);
    ("Energetic",
     [ "https://picsum.photos/seed/energetic-1/1600/900";
       "https://picsum.photos/seed/energetic-2/1600/900";
       "https://picsum.photos/seed/energetic-3/1600/900" ]);
    ("Dramatic",
     [ "https://picsum.photos/seed/dramatic-1/1600/900";
       "https://picsum.photos/seed/dramatic-2/1600/900";
       "https://picsum.photos/seed/dramatic-3/1600/900" ]);
    ("Hip-Hop",
     [ "https://picsum.photos/seed/hiphop-1/1600/900";
       "https://picsum.photos/seed/hiphop-2/1600/900";
       "https://picsum.photos/seed/hiphop-3/1600/900" ]);
    ("Rock",
     [ "https://picsum.photos/seed/rock-1/1600/900";
       "https://picsum.photos/seed/rock-2/1600/900";
       "https://picsum.photos/seed/rock-3/1600/900" ]);
    ("Classical",
     [ "https://picsum.photos/seed/classical-1/1600/900";
       "https://picsum.photos/seed/classical-2/1600/900";
       "https://picsum.photos/seed/classical-3/1600/900" ]);
    ("Default",
     [ "https://picsum.photos/seed/default-1/1600/900";
       "https://picsum.photos/seed/default-2/1600/900";
       "https://picsum.photos/seed/default-3/1600/900";
       "https://picsum.photos/seed/default-4/1600/900";
       "https://picsum.photos/seed/default-5/1600/900";
       "https://picsum.photos/seed/default-6/1600/900" ]) ].

(** [Object.values(POOL).flat()], [Object.keys(POOL)] and [POOL[key]]. *)
Definition flatten : list string := concat (snd <$> POOL).

Definition pool_keys : list string := fst <$> POOL.

Definition pool_get (key : string) : option (list string) :=
  snd <$> List.find (λ kv, bool_decide (kv.1 = key)) POOL.

(** [s.includes(sub)] *)
Fixpoint includes (s sub : string) : bool :=
  String.prefix sub s ||
  match s with
  | String _ s' => includes s' sub
  | EmptyString => false
  end.

Section Pool.

(** [String.prototype.toLowerCase], and the index
    [Math.floor(Math.random() * n)] drawn for an array of length [n]. *)
Variable toLowerCase : string → string.
Variable floor_random : nat → nat.

Definition getRandomFromArray (arr : list string) : option string :=
  arr !! floor_random (length arr).

Definition getRandomImageForCategory (category : option string)
    : option string :=
  if negb (truthy category) then getRandomFromArray flatten else
  let key :=
    List.find
      (λ k, bool_decide (toLowerCase k = toLowerCase (str category)))
      pool_keys in
  if truthy key then getRandomFromArray (default [] (pool_get (str key)))
  else
    match List.find
            (λ k, includes (toLowerCase (str category)) (toLowerCase k))
            pool_keys with
    | Some k => getRandomFromArray (default [] (pool_get k))
    | None =>
        getRandomFromArray
          (match pool_get "Default" with
           | Some arr => arr
           | None => flatten
           end)
    end.

End Pool.

(** ASCII lower-casing, a stand-in for [toLowerCase] on the names used
    here. *)
Definition lower_ascii (c : Ascii.ascii) : Ascii.ascii :=
  let n := Ascii.nat_of_ascii c in
  if (65 <=? n)%nat && (n <=? 90)%nat then Ascii.ascii_of_nat (n + 32) else c.

Fixpoint lower (s : string) : string :=
  match s with
  | String c s' => String (lower_ascii c) (lower s')
  | EmptyString => EmptyString
  end.

(** ** Category listings (GET /api/categories, GET /api/admin/categories) *)

(** [String(v)] of a column value that may be NULL. *)
Definition String_of (v : option string) : string :=
  match v with
  | Some s => s
  | None => "null"
  end.

(** [filter(Boolean)] on values that are strings or NULL. *)
Definition filter_Boolean (l : list (option string)) : list string :=
  omap (λ v, if truthy v then Some (str v) else None) l.

(** [Array.from(new Set(l))]: the elements in the order of their first
    occurrence. *)
Definition Set_of (l : list string) : list string :=
  fold_left (λ acc x, if bool_decide (x ∈ acc) then acc else acc ++ [x]) l [].

(** [arr.sort(cmp)]: the sort is stable, so for a consistent comparator
    its result is that of insertion from the right. *)
Fixpoint sort_insert {A} (cmp : A → A → Z) (x : A) (l : list A) : list A :=
  match l with
  | [] => [x]
  | y :: l' => if cmp x y <=? 0 then x :: y :: l' else y :: sort_insert cmp x l'
  end.

Definition sort_by {A} (cmp : A → A → Z) (l : list A) : list A :=
  foldr (sort_insert cmp) [] l.

Section Listings.

(** [String.prototype.trim] and [String.prototype.localeCompare]. *)
Variable trim : string → string.
Variable localeCompare : string → string → Z.

(** GET /api/categories, from the rows of [SELECT name FROM categories]
    and of [SELECT DISTINCT category FROM songs]. *)
Definition api_categories (rows rows2 : list (option string)) : list string :=
  let fromTable :=
    filter_Boolean ((λ r, Some (trim (String_of r))) <$> rows) in
  let fromSongs :=
    filter_Boolean ((λ r, Some (trim (String_of r))) <$> rows2) in
  sort_by localeCompare (Set_of (fromTable ++ fromSongs)).

(** The loop of GET /api/admin/categories that adds the categories only
    songs use, with a null id. *)
Definition merge_song_categories (fromSongs : list string)
    (fromTable : list (option Z * string)) (names : gset string)
    : list (option Z * string) * gset string :=
  fold_left
    (λ acc s,
       if bool_decide (s ∈ acc.2) then acc
       else (acc.1 ++ [(None, s)], acc.2 ∪ {[ s ]}))
    fromSongs (fromTable, names).

(** GET /api/admin/categories, from the rows of
    [SELECT id, name FROM categories], whose names are taken to be
    strings, and of [SELECT DISTINCT category FROM songs]. *)
Definition api_admin_categories (rows : list (Z * string))
    (rows2 : list (option string)) : list (option Z * string) :=
  let fromTable := (λ r, (Some r.1, r.2)) <$> rows in
  let fromSongs := filter_Boolean rows2 in
  let names : gset string := list_to_set (snd <$> fromTable) in
  sort_by (λ a b, localeCompare a.2 b.2)
    (merge_song_categories fromSongs fromTable names).1.

End Listings.

(** A stand-in for [localeCompare]: the order of the character codes. *)
Definition compare_strings (a b : string) : Z :=
  match String.compare a b with
  | Lt => -1
  | Eq => 0
  | Gt => 1
  end.

(** ** Handlers between their awaits

    A handler runs until it has sent a statement to the pool and goes on
    when the statement has run; the statements of other requests run in
    between. [Reply r] is a handler that has answered. [Await stmt k] is a
    handler waiting for a statement: run on the stored state [w] the
    statement leaves [stmt w], and the handler goes on as [k w] up to its
    next statement. A block of synchronous file-system calls that follows
    a statement is a step of its own: it sees the disk as it is when the
    handler goes on, not as it was when the statement ran. *)
Inductive proc :=
| Reply (r : response)
| Await (stmt : world → world) (k : world → proc).


(** A handler run to its end with nothing in between. *)
Fixpoint run (p : proc) (w : world) : response * world :=
  match p with
  | Reply r => (r, w)
  | Await stmt k => run (k w) (stmt w)
  end.











Section Interleaving.
Context `{Bcrypt}.









End Interleaving.





(** * Properties *)

Ltac run :=
  unfold mbind, mret, M_bind, M_ret, bind, ret, gets, modify in *; simpl in *.

Ltac case_count :=
  match goal with
  | |- context [?a >=? ?b] => destruct (Z.geb_spec a b)
  | |- context [?a <=? ?b] => destruct (Z.leb_spec a b)
  end; simpl.

Lemma set_users_id w : set_users (users w) w = w.
Proof. by destruct w. Qed.

Lemma jwt_verify_Some t secret now :
  jwt_verify (Signed t) secret now = Some t
  ↔ jwt_key t = secret ∧ now < jwt_exp t.
Proof.
  unfold jwt_verify.
  destruct (bool_decide_reflect (jwt_key t = secret)) as [Hk|Hk];
    destruct (Z.ltb_spec now (jwt_exp t)); simpl; split;
    try done; intros [? ?]; try done; lia.
Qed.

Lemma jwt_verify_payload token secret now p :
  jwt_verify token secret now = Some p → token = Signed p.
Proof.
  destruct token as [|t]; simpl; [done|].
  destruct (_ && _); congruence.
Qed.

Lemma truthy_Some s : truthy (Some s) = true ↔ s ≠ "".
Proof.
  simpl. destruct (bool_decide_reflect (s = "")); simpl; split; congruence.
Qed.

(** ** Pay *)

(** C6. Pay leaves the stored state as it found it, whatever it answers:
    400 without a token, 401 for a token that does not verify, 402 when
    [simulateFail] is set, 200 otherwise. Nothing records a payment: every
    later request is answered from the same state as if Pay had not been
    called. *)
Theorem api_pay_changes_nothing `{Bcrypt} previewToken simulateFail now w :
  (api_pay previewToken simulateFail now w).2 = w
  ∧ status (api_pay previewToken simulateFail now w).1 =
      match previewToken with
      | None => 400
      | Some token =>
          match jwt_verify token JWT_SECRET now with
          | None => 401
          | Some _ => if simulateFail then 402 else 200
          end
      end
  ∧ ∀ now' r,
      handle now' r (handle now (Pay previewToken simulateFail) w).2
      = handle now' r w.
Proof.
  assert (Hw : (api_pay previewToken simulateFail now w).2 = w).
  { unfold api_pay. destruct previewToken as [token|]; [|done].
    destruct (jwt_verify token JWT_SECRET now); [|done].
    by destruct simulateFail. }
  split; [done|]. split.
  - unfold api_pay. destruct previewToken as [token|]; [|done].
    destruct (jwt_verify token JWT_SECRET now); [|done].
    by destruct simulateFail.
  - intros now' r. simpl. by rewrite Hw.
Qed.

(** ** Authentication of the download route *)

Lemma verifyUserToken_inr authorization now email :
  verifyUserToken authorization now = inr email ↔
  ∃ t, authorization = Some (Signed t) ∧ valid_token t now
       ∧ jwt_type t = Some "user" ∧ email = jwt_email t.
Proof.
  unfold verifyUserToken, valid_token. split.
  - destruct authorization as [token|]; [|done].
    destruct (jwt_verify token JWT_SECRET now) as [p|] eqn:Hv; [|done].
    pose proof (jwt_verify_payload _ _ _ _ Hv) as ->.
    destruct (bool_decide_reflect (jwt_type p = Some "user")); simpl; [|done].
    intros [= <-]. by exists p.
  - intros (t & -> & Hv & Ht & ->). rewrite Hv.
    by rewrite bool_decide_eq_true_2.
Qed.

(** C3. A download request that presents a valid, unexpired token of
    preview kind is answered 401 (AuthError) and nothing is read or
    written, as is a request without a bearer token or with a token that
    does not verify; the requests that pass the authentication of the
    download route are exactly those whose token is valid and of kind
    [user]. *)
Theorem api_download_rejects_preview_token t songId now w :
  valid_token t now →
  jwt_type t = Some "preview" →
  api_download (Some (Signed t)) songId now w
    = (error 401 "invalid token type", w)
  ∧ kind_of (api_download (Some (Signed t)) songId now w).1 = Some AuthError
  ∧ kind_of (api_download None songId now w).1 = Some AuthError
  ∧ (∀ token, jwt_verify token JWT_SECRET now = None →
       kind_of (api_download (Some token) songId now w).1 = Some AuthError)
  ∧ (∀ authorization email,
       verifyUserToken authorization now = inr email ↔
       ∃ t', authorization = Some (Signed t') ∧ valid_token t' now
             ∧ jwt_type t' = Some "user" ∧ email = jwt_email t').
Proof.
  intros Hv Ht.
  assert (Hd : api_download (Some (Signed t)) songId now w
               = (error 401 "invalid token type", w)).
  { unfold api_download, verifyUserToken. rewrite Hv, Ht. done. }
  split; [done|]. rewrite Hd. split; [done|]. split; [done|]. split.
  - intros token Hnone. unfold api_download, verifyUserToken.
    by rewrite Hnone.
  - intros. apply verifyUserToken_inr.
Qed.

Lemma api_download_rejects_preview_token_witness :
  api_download (Some (Signed alice_preview_token)) 1 5
      (world_of {[ "Calm" := 5 ]} ∅)
    = (error 401 "invalid token type", world_of {[ "Calm" := 5 ]} ∅).
Proof.
  apply (api_download_rejects_preview_token alice_preview_token 1 5
           (world_of {[ "Calm" := 5 ]} ∅)); reflexivity.
Defined.

(** ** Set-password and pay accept any token the server signed *)

Lemma setUserPassword_lookup email hash w e u :
  email = Some e → users w !! e = Some u →
  users (setUserPassword email hash w).2 !! e
    = Some {| passwordHash := Some hash; previews := previews u |}.
Proof.
  intros -> Hu. run. by rewrite lookup_alter_eq, Hu.
Qed.

Lemma setUserPassword_absent e hash w :
  users w !! e = None → (setUserPassword (Some e) hash w).2 = w.
Proof.
  intros Hu. run. destruct w as [us ss fs]; simpl in *.
  unfold set_users; simpl. f_equal.
  apply map_eq. intros j. destruct (decide (e = j)) as [<-|Hne].
  - by rewrite lookup_alter_eq, Hu.
  - by rewrite lookup_alter_ne.
Qed.

Lemma api_set_password_valid `{Bcrypt} t password salt now w :
  valid_token t now →
  truthy password = true →
  api_set_password (Some (Signed t)) password salt now w
  = (ok (Token (jwt_sign (jwt_email t) "user" JWT_SECRET now TTL_7d)),
     (setUserPassword (jwt_email t) (hashSync (str password) salt) w).2).
Proof.
  intros Hv Hp. unfold api_set_password. unfold valid_token in Hv.
  rewrite Hp, Hv. simpl. run. by destruct (setUserPassword _ _ w).
Qed.

(** C9. Neither set-password nor pay looks at the kind of the token: for
    every token signed with the server secret and unexpired, whatever its
    kind (so for a user-kind token carrying an email as for a preview
    token), pay answers as for any verified token, and set-password with
    a supplied password stores the hash on the row of the token's email and
    issues a new user-kind token for that email; two such tokens that
    carry the same email are treated identically. *)
Theorem set_password_and_pay_ignore_token_kind `{Bcrypt} t now :
  jwt_key t = JWT_SECRET →
  now < jwt_exp t →
  (∀ simulateFail w,
     api_pay (Some (Signed t)) simulateFail now w
     = (if simulateFail then error 402 "payment failed (simulated)"
        else ok OkTrue, w))
  ∧ (∀ password salt w,
       truthy password = true →
       api_set_password (Some (Signed t)) password salt now w
       = (ok (Token (jwt_sign (jwt_email t) "user" JWT_SECRET now TTL_7d)),
          (setUserPassword (jwt_email t) (hashSync (str password) salt) w).2))
  ∧ (∀ password salt w e u,
       truthy password = true →
       jwt_email t = Some e → users w !! e = Some u →
       users (api_set_password (Some (Signed t)) password salt now w).2 !! e
       = Some {| passwordHash := Some (hashSync (str password) salt);
                 previews := previews u |})
  ∧ (∀ t' password salt w simulateFail,
       jwt_key t' = JWT_SECRET → now < jwt_exp t' →
       jwt_email t' = jwt_email t →
       api_set_password (Some (Signed t')) password salt now w
       = api_set_password (Some (Signed t)) password salt now w
       ∧ api_pay (Some (Signed t')) simulateFail now w
         = api_pay (Some (Signed t)) simulateFail now w).
Proof.
  intros Hk Hexp.
  assert (Hv : jwt_verify (Signed t) JWT_SECRET now = Some t)
    by by apply jwt_verify_Some.
  assert (Hset : ∀ password salt w, truthy password = true →
    api_set_password (Some (Signed t)) password salt now w
    = (ok (Token (jwt_sign (jwt_email t) "user" JWT_SECRET now TTL_7d)),
       (setUserPassword (jwt_email t) (hashSync (str password) salt) w).2))
    by (intros; by apply api_set_password_valid).
  split; [|split; [done|split]].
  - intros simulateFail w. unfold api_pay. rewrite Hv.
    by destruct simulateFail.
  - intros password salt w e u Hp He Hu. rewrite Hset by done.
    by apply setUserPassword_lookup.
  - intros t' password salt w simulateFail Hk' Hexp' He.
    assert (Hv' : jwt_verify (Signed t') JWT_SECRET now = Some t')
      by by apply jwt_verify_Some.
    unfold api_set_password, api_pay. rewrite Hv, Hv', He. done.
Qed.

Lemma set_password_and_pay_ignore_token_kind_witness :
  api_pay (Some (Signed alice_user_token)) false 5 (world_of ∅ ∅)
    = (ok OkTrue, world_of ∅ ∅)
  ∧ status (@api_set_password sample_bcrypt
              (Some (Signed alice_user_token)) (Some "pw") "salt" 5
              (world_of ∅ ∅)).1 = 200.
Proof.
  pose proof (@set_password_and_pay_ignore_token_kind sample_bcrypt
                alice_user_token 5 eq_refl eq_refl) as (Hpay & Hset & _).
  split.
  - exact (Hpay false (world_of ∅ ∅)).
  - rewrite (Hset (Some "pw") "salt" (world_of ∅ ∅) eq_refl). reflexivity.
Defined.

(** ** How requests change the users table *)

Lemma insert_ignore_lookup e us :
  is_Some (insert_ignore e us !! e).
Proof.
  unfold insert_ignore. destruct (us !! e) eqn:Hu.
  - by rewrite Hu.
  - by rewrite lookup_insert_eq.
Qed.

Lemma insert_ignore_present e us u :
  us !! e = Some u → insert_ignore e us = us.
Proof. unfold insert_ignore. by intros ->. Qed.

Lemma api_preview_cb_users email song w :
  email ≠ "" →
  users_change (users w) (users (api_preview_cb email false song w).2).
Proof.
  intros He. unfold api_preview_cb. simpl.
  destruct (js_truthy song); simpl; [|constructor].
  pose proof (change_previewed (users w) email
                (property_key (js_category song)) He) as Hc.
  run.
  destruct (users w !! email) as [u|] eqn:Hu; simpl.
  - rewrite (insert_ignore_present _ _ _ Hu), Hu in Hc. simpl in Hc.
    case_count; [constructor|].
    destruct (path_join UPLOADS (js_filename song)); simpl.
    + by apply Hc.
    + destruct (bool_decide _); simpl; by apply Hc.
  - destruct (insert_ignore email (users w) !! email) as [u|] eqn:Hu';
      [|by destruct (insert_ignore_lookup email (users w)); congruence].
    simpl in Hc.
    case_count; [by constructor|].
    destruct (path_join UPLOADS (js_filename song)); simpl.
    + by apply Hc.
    + destruct (bool_decide _); simpl; by apply Hc.
Qed.

Lemma truthy_str v : truthy v = true → v = Some (str v) ∧ str v ≠ "".
Proof.
  destruct v as [s|]; [|done]. intros Hs. split; [done|].
  by apply truthy_Some.
Qed.

Lemma api_download_cb_frame email err song w :
  (api_download_cb email err song w).2 = w.
Proof.
  unfold api_download_cb. destruct (err || negb (js_truthy song)); [done|].
  run. destruct (email ≫= _) as [u|]; [|done].
  destruct (previews u) as [m|]; [|done].
  case_count; [done|].
  destruct (path_join _ _); [done|]. simpl. by destruct (bool_decide _).
Qed.

Lemma api_download_frame authorization songId now w :
  (api_download authorization songId now w).2 = w.
Proof.
  unfold api_download. destruct (verifyUserToken _ _); [done|].
  run. apply api_download_cb_frame.
Qed.

Lemma setUserPassword_users email hash w :
  users_change (users w) (users (setUserPassword email hash w).2).
Proof. destruct email; simpl; constructor. Qed.

Section Server.
Context `{Bcrypt}.

Lemma handle_users_change now r w :
  users_change (users w) (users (handle now r w).2).
Proof.
  destruct r; simpl.
  - unfold api_request_preview.
    destruct (truthy email) eqn:He; simpl; [|constructor].
    apply truthy_str in He as [_ He]. run. by constructor.
  - unfold api_pay. destruct previewToken as [token|]; [|constructor].
    destruct (jwt_verify _ _ _); [|constructor].
    destruct simulateFail; constructor.
  - unfold api_set_password.
    destruct previewToken as [token|]; [|constructor].
    destruct (truthy password); simpl; [|constructor].
    destruct (jwt_verify _ _ _) as [p|]; [|constructor].
    run. pose proof (setUserPassword_users (jwt_email p)
                       (hashSync (str password) salt) w) as Hc.
    by destruct (setUserPassword _ _ w).
  - unfold api_login.
    destruct (negb (truthy email) || negb (truthy password)); [constructor|].
    run. destruct (email ≫= _) as [u|]; [|constructor].
    destruct (negb (truthy (passwordHash u))); [constructor|].
    destruct (negb (compareSync _ _)); constructor.
  - unfold api_preview.
    destruct (truthy (getEmailFromAuthHeader authorization now)) eqn:He;
      simpl; [|constructor].
    apply truthy_str in He as [_ He]. run.
    by apply api_preview_cb_users.
  - rewrite api_download_frame. constructor.
  - unfold api_user_set_password.
    destruct (verifyUserToken _ _) as [?|email]; [constructor|].
    destruct (truthy password); simpl; [|constructor].
    run. pose proof (setUserPassword_users email
                       (hashSync (str password) salt) w) as Hc.
    by destruct (setUserPassword _ _ w).
  - unfold api_admin_login. destruct (_ && _); constructor.
  - unfold api_admin_delete_category.
    destruct (verifyAdmin _ _); [constructor|].
    destruct (negb (truthy (Some name))); constructor.
Qed.

End Server.

(** The keys of the users table are non-empty in every reachable state:
    a row is only inserted behind a truthiness test of the email. *)
Lemma users_change_keys us us' :
  users_change us us' →
  (∀ e, is_Some (us !! e) → e ≠ "") →
  ∀ e, is_Some (us' !! e) → e ≠ "".
Proof.
  assert (Hins : ∀ e0, e0 ≠ "" → (∀ e, is_Some (us !! e) → e ≠ "") →
            ∀ e, is_Some (insert_ignore e0 us !! e) → e ≠ "").
  { intros e0 He0 Hk e. unfold insert_ignore.
    destruct (us !! e0); [by apply Hk|].
    destruct (decide (e0 = e)) as [<-|Hne]; [done|].
    rewrite lookup_insert_ne by done. apply Hk. }
  intros [|e0 He0|e0 hash|e0 k He0 Hlt] Hk e; [by apply Hk|by apply Hins|..].
  - rewrite lookup_alter. destruct (decide (e0 = e)) as [<-|];
      rewrite ?fmap_is_Some; apply Hk.
  - rewrite lookup_alter. destruct (decide (e0 = e)) as [<-|];
      rewrite ?fmap_is_Some; by apply Hins.
Qed.

Lemma reachable_serve `{Bcrypt} rs w :
  reachable w → reachable (serve rs w).
Proof.
  revert w. induction rs as [|[now r] rs IH]; intros w Hw; simpl; [done|].
  apply IH. by constructor.
Qed.

Lemma reachable_emails_truthy `{Bcrypt} w :
  reachable w → ∀ e, is_Some (users w !! e) → e ≠ "".
Proof.
  induction 1 as [w Hw|w now r _ IH].
  - intros e. rewrite Hw, lookup_empty. by intros [? ?].
  - eapply users_change_keys; [apply handle_users_change|done].
Qed.

(** ** The account upgrade flow *)

Lemma jwt_sign_valid email type now expiresIn :
  0 < expiresIn → valid_token (jwt_sign email type JWT_SECRET now expiresIn) now.
Proof. intros Hpos. apply jwt_verify_Some. simpl. split; [done|lia]. Qed.

Lemma api_login_unauthorized `{Bcrypt} w email password now :
  email ≠ "" → password ≠ "" →
  users w !! email = None
  ∨ (∃ u, users w !! email = Some u
          ∧ (passwordHash u = None
             ∨ ∃ h, passwordHash u = Some h ∧ compareSync password h = false)) →
  ∃ msg, api_login (Some email) (Some password) now w = (error 401 msg, w).
Proof.
  intros He Hp Hcase. unfold api_login.
  apply truthy_Some in He as ->. apply truthy_Some in Hp as ->. simpl. run.
  destruct Hcase as [->|(u & -> & [Hh|(h & Hh & Hc)])]; [by eexists|..].
  - rewrite Hh. by eexists.
  - rewrite Hh. simpl. destruct (negb (negb (bool_decide (h = ""))));
      [by eexists|]. rewrite Hc. by eexists.
Qed.

(** C10. Set-password with a valid token whose email has no row in the
    users table, and a supplied password, answers 200 with a user-kind
    token for that email, which the user-only authentication accepts, and
    leaves the stored state as it was: no row is created and no hash is
    stored. A login with that email afterwards is answered 401, whatever
    password is supplied. The email of the token is a non-empty string, as
    it is in every token the server signs. *)
Theorem set_password_without_user_row `{Bcrypt} t e password salt now w :
  valid_token t now →
  jwt_email t = Some e →
  e ≠ "" →
  users w !! e = None →
  truthy password = true →
  api_set_password (Some (Signed t)) password salt now w
    = (ok (Token (jwt_sign (Some e) "user" JWT_SECRET now TTL_7d)), w)
  ∧ verifyUserToken
      (Some (Signed (jwt_sign (Some e) "user" JWT_SECRET now TTL_7d))) now
    = inr (Some e)
  ∧ ∀ password' now',
      password' ≠ "" →
      api_login (Some e) (Some password') now'
        (api_set_password (Some (Signed t)) password salt now w).2
      = (error 401 "no such user or password not set", w).
Proof.
  intros Hv He Hne Hu Hp.
  assert (Hset : api_set_password (Some (Signed t)) password salt now w
    = (ok (Token (jwt_sign (Some e) "user" JWT_SECRET now TTL_7d)), w)).
  { rewrite api_set_password_valid by done. rewrite He.
    by rewrite setUserPassword_absent. }
  split; [done|]. split.
  - apply verifyUserToken_inr. eexists. split; [done|].
    split; [by apply jwt_sign_valid|done].
  - intros password' now' Hp'. rewrite Hset. simpl. unfold api_login.
    apply truthy_Some in Hne as ->. apply truthy_Some in Hp' as ->.
    simpl. run. by rewrite Hu.
Qed.

Lemma set_password_without_user_row_witness :
  @api_set_password sample_bcrypt (Some (Signed alice_preview_token))
    (Some "pw") "salt" 5 start_world
  = (ok (Token (jwt_sign (Some alice) "user" JWT_SECRET 5 TTL_7d)),
     start_world).
Proof.
  apply (@set_password_without_user_row sample_bcrypt alice_preview_token
           alice (Some "pw") "salt" 5 start_world);
    [reflexivity|reflexivity|discriminate|reflexivity|reflexivity].
Defined.

(** C7. For every existing user and supplied password [p]: set-password
    with a valid token for that user's email and [p] succeeds, and a login
    with that email and [p] afterwards succeeds and returns a user-kind
    token for the email. And for every supplied email and password, login
    is answered 401 whenever no user row exists, the row has no password
    hash, or the password does not match the stored hash. *)
Theorem login_after_set_password `{Bcrypt} w t e u p salt now now' :
  reachable w →
  valid_token t now →
  jwt_email t = Some e →
  users w !! e = Some u →
  p ≠ "" →
  (api_set_password (Some (Signed t)) (Some p) salt now w).1
    = ok (Token (jwt_sign (Some e) "user" JWT_SECRET now TTL_7d))
  ∧ api_login (Some e) (Some p) now'
      (api_set_password (Some (Signed t)) (Some p) salt now w).2
    = (ok (Token (jwt_sign (Some e) "user" JWT_SECRET now' TTL_7d)),
       (api_set_password (Some (Signed t)) (Some p) salt now w).2)
  ∧ jwt_type (jwt_sign (Some e) "user" JWT_SECRET now' TTL_7d) = Some "user"
  ∧ ∀ w0 email password now0,
      email ≠ "" → password ≠ "" →
      users w0 !! email = None
      ∨ (∃ u0, users w0 !! email = Some u0
               ∧ (passwordHash u0 = None
                  ∨ ∃ h, passwordHash u0 = Some h
                         ∧ compareSync password h = false)) →
      ∃ msg,
        api_login (Some email) (Some password) now0 w0 = (error 401 msg, w0)
        ∧ kind_of (error 401 msg) = Some AuthError.
Proof.
  intros Hr Hv He Hu Hp.
  assert (Hne : e ≠ "") by (eapply reachable_emails_truthy; eauto).
  assert (Htp : truthy (Some p) = true) by by apply truthy_Some.
  pose proof (setUserPassword_lookup (Some e) (hashSync p salt) w e u
                eq_refl Hu) as Hrow.
  rewrite api_set_password_valid by done. rewrite He. simpl str.
  split; [done|]. split; [|split; [done|]].
  - unfold api_login. apply truthy_Some in Hne as ->. rewrite Htp. simpl.
    run. rewrite Hrow. simpl.
    rewrite (bool_decide_eq_false_2 _ (hashSync_truthy p salt)). simpl.
    by rewrite compareSync_hashSync.
  - intros w0 email password now0 He0 Hp0 Hcase.
    destruct (api_login_unauthorized w0 email password now0 He0 Hp0 Hcase)
      as [msg Hl].
    by exists msg.
Qed.

Lemma login_after_set_password_witness :
  status
    (@api_login sample_bcrypt (Some alice) (Some "pw") 9
       (@api_set_password sample_bcrypt (Some (Signed alice_preview_token))
          (Some "pw") "salt" 5
          (@handle sample_bcrypt 0 (RequestPreview (Some alice))
             start_world).2).2).1 = 200.
Proof.
  pose proof (@login_after_set_password sample_bcrypt
    (@handle sample_bcrypt 0 (RequestPreview (Some alice)) start_world).2
    alice_preview_token alice
    {| passwordHash := None; previews := Some ∅ |} "pw" "salt" 5 9
    (reachable_handle _ 0 _ (reachable_start start_world eq_refl))
    eq_refl eq_refl eq_refl ltac:(discriminate)) as (_ & Hlogin & _).
  rewrite Hlogin. reflexivity.
Defined.

(** C8. A preview request for an email that already has a row in the
    users table leaves the stored state exactly as it was, so the row
    keeps its preview counts and its password hash, and still answers
    with a freshly signed preview token, valid from that moment; and a
    second request straight after a first leaves what the first stored. *)
Theorem api_request_preview_idempotent `{Bcrypt} w email u now :
  reachable w →
  users w !! email = Some u →
  api_request_preview (Some email) now w
    = (ok (PreviewToken
             (jwt_sign (Some email) "preview" JWT_SECRET now TTL_10m)), w)
  ∧ users (api_request_preview (Some email) now w).2 !! email = Some u
  ∧ valid_token (jwt_sign (Some email) "preview" JWT_SECRET now TTL_10m) now
  ∧ ∀ w0 email0 now1 now2,
      (api_request_preview email0 now2
         (api_request_preview email0 now1 w0).2).2
      = (api_request_preview email0 now1 w0).2.
Proof.
  intros Hr Hu.
  assert (Hne : email ≠ "") by (eapply reachable_emails_truthy; eauto).
  assert (Heq : api_request_preview (Some email) now w
    = (ok (PreviewToken
             (jwt_sign (Some email) "preview" JWT_SECRET now TTL_10m)), w)).
  { unfold api_request_preview. apply truthy_Some in Hne as ->. simpl. run.
    rewrite (insert_ignore_present _ _ _ Hu). by rewrite set_users_id. }
  split; [done|]. rewrite Heq. split; [done|].
  split; [by apply jwt_sign_valid|].
  intros w0 email0 now1 now2. unfold api_request_preview.
  destruct (truthy email0); simpl; [|done]. run.
  destruct (insert_ignore_lookup (str email0) (users w0)) as [u0 Hu0].
  rewrite (insert_ignore_present _ _ _ Hu0). done.
Qed.

Lemma api_request_preview_idempotent_witness :
  api_request_preview (Some alice) 7
    (@serve sample_bcrypt alice_session start_world)
  = (ok (PreviewToken (jwt_sign (Some alice) "preview" JWT_SECRET 7 TTL_10m)),
     @serve sample_bcrypt alice_session start_world).
Proof.
  eapply (@api_request_preview_idempotent sample_bcrypt
            (@serve sample_bcrypt alice_session start_world) alice _ 7).
  - apply reachable_serve. by apply reachable_start.
  - vm_compute. reflexivity.
Defined.

(** ** Preview counts never go down *)

Lemma count_entry w email category :
  count w email category = default 0 (entry w email category).
Proof.
  unfold count, entry. destruct (users w !! email) as [u|]; simpl; [|done].
  by destruct (previews u).
Qed.





(** ** Handlers as sequences of statements *)











(** ** The preview and download gate *)

Lemma previews_or_empty_insert_ignore email us :
  previews_or_empty (insert_ignore email us !! email)
  = previews_or_empty (us !! email).
Proof.
  unfold insert_ignore. destruct (us !! email) eqn:Hu.
  - by rewrite Hu.
  - by rewrite lookup_insert_eq.
Qed.

Lemma count_previews_or_empty w email c :
  count w email c = default 0 (previews_or_empty (users w !! email) !! c).
Proof.
  unfold count. destruct (users w !! email) as [u|]; simpl; [|done].
  by destruct (previews u).
Qed.

(** The callback of the preview route in one equation, for whatever value
    it is handed in place of a song. *)
Lemma api_preview_cb_eq email song w :
  js_truthy song = true →
  api_preview_cb email false song w
  = if count w email (property_key (js_category song)) >=? 5
    then (error 403 "preview limit reached for this category (5)", w)
    else
      (match path_join UPLOADS (js_filename song) with
       | inl e => caught e
       | inr filePath =>
           if negb (bool_decide (filePath ∈ files w))
           then error 404 "file missing on server"
           else ok (AudioStream filePath)
       end,
       set_users
         (alter (λ u, {| passwordHash := passwordHash u;
                         previews := Some
                           (<[property_key (js_category song) :=
                                count w email
                                  (property_key (js_category song)) + 1]>
                              (previews_or_empty (users w !! email))) |})
            email (insert_ignore email (users w))) w).
Proof.
  intros Hs. rewrite count_previews_or_empty.
  unfold api_preview_cb. rewrite Hs. simpl. run.
  destruct (users w !! email) as [u|] eqn:Hu; simpl.
  - rewrite (insert_ignore_present _ _ _ Hu).
    case_count; [done|].
    destruct (path_join UPLOADS (js_filename song)); simpl; [done|].
    by destruct (bool_decide _).
  - destruct (insert_ignore_lookup email (users w)) as [u1 Hu1].
    pose proof (previews_or_empty_insert_ignore email (users w)) as Hp.
    rewrite Hu1, Hu in Hp. simpl in Hp. rewrite Hu1. simpl. rewrite Hp.
    rewrite lookup_empty. simpl.
    destruct (path_join UPLOADS (js_filename song)); simpl; [done|].
    by destruct (bool_decide _).
Qed.

Lemma count_after_preview w email k n c :
  count
    (set_users
       (alter (λ u, {| passwordHash := passwordHash u;
                       previews := Some
                         (<[k := n]> (previews_or_empty (users w !! email))) |})
          email (insert_ignore email (users w))) w) email c
  = if decide (k = c) then n else count w email c.
Proof.
  rewrite !count_previews_or_empty. simpl. rewrite lookup_alter_eq.
  destruct (insert_ignore_lookup email (users w)) as [u1 ->]. simpl.
  destruct (decide (k = c)) as [<-|Hne].
  - by rewrite lookup_insert_eq.
  - by rewrite lookup_insert_ne.
Qed.

(** What the callback of the preview route does when it is handed a song
    row whose category is not the name of a member of [Object.prototype]:
    at 5 or more it answers 403 and stores nothing; below 5 it stores the
    count of the row's category raised by one and leaves the other
    categories as they were, before it looks for the file, and answers 404
    when the file is not there. *)
Lemma api_preview_cb_on_row email row w :
  category row ∉ Object_prototype_names →
  (5 ≤ count w email (category row) →
   api_preview_cb email false (JsObject row) w
   = (error 403 "preview limit reached for this category (5)", w))
  ∧ (count w email (category row) < 5 →
     count (api_preview_cb email false (JsObject row) w).2 email (category row)
     = count w email (category row) + 1
     ∧ (∀ c, c ≠ category row →
          count (api_preview_cb email false (JsObject row) w).2 email c
          = count w email c)
     ∧ (UPLOADS +:+ "/" +:+ filename row ∉ files w →
        (api_preview_cb email false (JsObject row) w).1
        = error 404 "file missing on server")).
Proof.
  intros _. rewrite api_preview_cb_eq by done. simpl. split; intros Hc.
  - case_count; [done|lia].
  - case_count; [lia|]. rewrite count_after_preview.
    split; [by rewrite decide_True|]. split.
    + intros c Hne. rewrite count_after_preview. by rewrite decide_False.
    + intros Hf. by rewrite bool_decide_eq_false_2.
Qed.

(** What the preview route does as served: the callback receives the
    array of rows, reads [category] and [filename] off the array, and so
    counts under the key [undefined] and fails in [path.join]. *)
Lemma api_preview_on_row_array t e songId now w :
  valid_token t now →
  jwt_email t = Some e →
  e ≠ "" →
  (5 ≤ count w e "undefined" →
   api_preview (Some (Signed t)) songId now w
   = (error 403 "preview limit reached for this category (5)", w))
  ∧ (count w e "undefined" < 5 →
     (api_preview (Some (Signed t)) songId now w).1
     = caught TypeError_path_not_string
     ∧ count (api_preview (Some (Signed t)) songId now w).2 e "undefined"
       = count w e "undefined" + 1
     ∧ ∀ c, c ≠ "undefined" →
         count (api_preview (Some (Signed t)) songId now w).2 e c
         = count w e c).
Proof.
  intros Hv He Hne. unfold api_preview, getEmailFromAuthHeader.
  unfold valid_token in Hv. rewrite Hv, He.
  apply truthy_Some in Hne as ->. simpl. run.
  rewrite api_preview_cb_eq by done. simpl. split; intros Hc.
  - case_count; [done|lia].
  - case_count; [lia|]. rewrite count_after_preview.
    split; [done|]. split; [by rewrite decide_True|].
    intros c Hc'. rewrite count_after_preview. by rewrite decide_False.
Qed.

(** The states of the two scenarios below are states the server reaches. *)
Lemma alice_scenarios_reachable `{Bcrypt} fs :
  reachable (alice_fresh fs) ∧ reachable alice_after_five.
Proof.
  assert (Hfresh : ∀ fs', reachable (alice_fresh fs')).
  { intros fs'.
    apply (reachable_handle (catalogue fs') 0 (RequestPreview (Some alice))).
    by apply reachable_start. }
  split; [done|]. unfold alice_after_five.
  generalize 5%nat. intros n. induction n as [|n IH]; simpl; [done|].
  by apply (reachable_handle _ 1
              (Preview (Some (Signed alice_preview_token)) 1)).
Qed.

(** C1, as the code runs. Alice has just asked for a preview token, so
    her count in every category is 0; song 1 is in Calm, song 2 in Happy,
    both files are present. Her preview request for song 1 is answered
    500, leaves her count in Calm at 0 and stores 1 under the key
    [undefined]. After five such requests her count in Happy is still 0,
    yet a preview request for song 2, with her valid user token as with
    her preview token, is answered 403. Handed the row of the song the
    callback does what is expected of the route: it raises Calm to 1 and
    streams the file, and after five previews of Calm it still serves
    Happy. *)
Theorem api_preview_counts_under_undefined :
  count (alice_fresh {[ "uploads/calm1.mp3" ]}) alice (category calm1) = 0
  ∧ (api_preview (Some (Signed alice_preview_token)) 1 1
       (alice_fresh {[ "uploads/calm1.mp3" ]})).1
    = caught TypeError_path_not_string
  ∧ count
      (api_preview (Some (Signed alice_preview_token)) 1 1
         (alice_fresh {[ "uploads/calm1.mp3" ]})).2 alice (category calm1) = 0
  ∧ count
      (api_preview (Some (Signed alice_preview_token)) 1 1
         (alice_fresh {[ "uploads/calm1.mp3" ]})).2 alice "undefined" = 1
  ∧ count alice_after_five alice (category happy1) = 0
  ∧ api_preview (Some (Signed alice_user_token)) 2 1 alice_after_five
    = (error 403 "preview limit reached for this category (5)",
       alice_after_five)
  ∧ api_preview (Some (Signed alice_preview_token)) 2 1 alice_after_five
    = (error 403 "preview limit reached for this category (5)",
       alice_after_five)
  ∧ (api_preview_cb alice false (JsObject calm1)
       (alice_fresh {[ "uploads/calm1.mp3" ]})).1
    = ok (AudioStream "uploads/calm1.mp3")
  ∧ count
      (api_preview_cb alice false (JsObject calm1)
         (alice_fresh {[ "uploads/calm1.mp3" ]})).2 alice (category calm1) = 1
  ∧ (api_preview_cb alice false (JsObject happy1)
       (Nat.iter 5
          (λ w, (api_preview_cb alice false (JsObject calm1) w).2)
          (alice_fresh {[ "uploads/calm1.mp3"; "uploads/happy1.mp3" ]}))).1
    = ok (AudioStream "uploads/happy1.mp3").
Proof. repeat split; by vm_compute. Qed.

(** C4, as the code runs. Alice has just asked for a preview token; song 1
    exists and is in Calm, her count there is 0, and the file of song 1 is
    absent. Her preview request for song 1 is answered 500, not 404, her
    count in Calm stays 0 and the slot is charged under the key
    [undefined]. Handed the row of the song the callback stores Calm
    raised to 1 and then answers 404. *)
Theorem api_preview_missing_file_as_served :
  calm1 ∈ songs (alice_fresh ∅)
  ∧ (UPLOADS +:+ "/" +:+ filename calm1 ∉ files (alice_fresh ∅))
  ∧ count (alice_fresh ∅) alice (category calm1) = 0
  ∧ (api_preview (Some (Signed alice_preview_token)) 1 1 (alice_fresh ∅)).1
    = caught TypeError_path_not_string
  ∧ count
      (api_preview (Some (Signed alice_preview_token)) 1 1 (alice_fresh ∅)).2
      alice (category calm1) = 0
  ∧ count
      (api_preview (Some (Signed alice_preview_token)) 1 1 (alice_fresh ∅)).2
      alice "undefined" = 1
  ∧ (api_preview_cb alice false (JsObject calm1) (alice_fresh ∅)).1
    = error 404 "file missing on server"
  ∧ count (api_preview_cb alice false (JsObject calm1) (alice_fresh ∅)).2
      alice (category calm1) = 1.
Proof.
  split; [by left|]. split; [set_solver|]. repeat split; by vm_compute.
Qed.

(** What the callback of the download route answers, for whatever value it
    is handed in place of a song. *)
Lemma api_download_cb_eq email song w :
  js_truthy song = true →
  api_download_cb (Some email) false song w
  = (match users w !! email with
     | None => error 403 "no access"
     | Some u =>
         match previews u with
         | None => error 403 "no access"
         | Some _ =>
             if count w email (property_key (js_category song)) <=? 0
             then error 403
                    "no preview/download allowance left for this category"
             else
               match path_join UPLOADS (js_filename song) with
               | inl e => caught e
               | inr filePath =>
                   if negb (bool_decide (filePath ∈ files w))
                   then error 404 "file missing"
                   else ok (Attachment filePath)
               end
         end
     end, w).
Proof.
  intros Hs. unfold api_download_cb, count. rewrite Hs. simpl. run.
  destruct (users w !! email) as [u|]; simpl; [|done].
  destruct (previews u) as [m|]; [|done].
  case_count; [done|].
  destruct (path_join UPLOADS (js_filename song)); simpl; [done|].
  by destruct (bool_decide _).
Qed.

(** What the download route does as served: the callback receives the
    array of rows, so it reads the count under the key [undefined] and,
    where that is positive, fails in [path.join]: no request is answered
    with the file. *)
Lemma api_download_on_row_array authorization songId now w :
  status (api_download authorization songId now w).1 ≠ 200.
Proof.
  unfold api_download.
  destruct (verifyUserToken authorization now) as [r|email] eqn:Hv.
  - unfold verifyUserToken in Hv.
    destruct authorization as [token|]; [|by injection Hv as <-].
    destruct (jwt_verify token JWT_SECRET now) as [p|];
      [|by injection Hv as <-].
    destruct (negb _); [by injection Hv as <-|done].
  - run. unfold api_download_cb. simpl. run.
    destruct (email ≫= _) as [u|]; [|done].
    destruct (previews u) as [m|]; [|done].
    by case_count.
Qed.

(** What the callback of the download route does when it is handed a
    song row whose category is not the name of a member of
    [Object.prototype]: it changes nothing, answers with the file exactly
    when the stored count of the row's category is above 0 and the file is
    present, answers 403 when the count is 0 (or below, or the user row or
    its map is absent) and 404 when the count is above 0 and the file is
    missing. A valid user-kind token passes the authentication of the
    route, and no download request changes the stored state. *)
Lemma api_download_cb_on_row email row w :
  category row ∉ Object_prototype_names →
  (api_download_cb (Some email) false (JsObject row) w).2 = w
  ∧ (status (api_download_cb (Some email) false (JsObject row) w).1 = 200 ↔
     0 < count w email (category row)
     ∧ (UPLOADS +:+ "/" +:+ filename row ∈ files w))
  ∧ (0 < count w email (category row) →
     UPLOADS +:+ "/" +:+ filename row ∈ files w →
     (api_download_cb (Some email) false (JsObject row) w).1
     = ok (Attachment (UPLOADS +:+ "/" +:+ filename row)))
  ∧ (count w email (category row) ≤ 0 →
     kind_of (api_download_cb (Some email) false (JsObject row) w).1
     = Some Forbidden)
  ∧ (0 < count w email (category row) →
     UPLOADS +:+ "/" +:+ filename row ∉ files w →
     (api_download_cb (Some email) false (JsObject row) w).1
     = error 404 "file missing")
  ∧ (∀ t now,
       valid_token t now → jwt_type t = Some "user" →
       verifyUserToken (Some (Signed t)) now = inr (jwt_email t))
  ∧ (∀ authorization songId now,
       (api_download authorization songId now w).2 = w)
  ∧ (∀ n : nat,
       Nat.iter n
         (λ w0, (api_download_cb (Some email) false (JsObject row) w0).2) w
       = w).
Proof.
  intros _. rewrite api_download_cb_eq by done. simpl.
  split; [done|].
  set (answer := match users w !! email with
                 | None => error 403 "no access"
                 | Some u => _
                 end).
  assert (Hcases :
    (count w email (category row) ≤ 0 ∧ ∃ msg, answer = error 403 msg)
    ∨ (0 < count w email (category row) ∧
       answer = if negb (bool_decide
                           (UPLOADS +:+ "/" +:+ filename row ∈ files w))
                then error 404 "file missing"
                else ok (Attachment (UPLOADS +:+ "/" +:+ filename row)))).
  { subst answer. unfold count. destruct (users w !! email) as [u|];
      [|left; split; [done|by eexists]].
    destruct (previews u) as [m|]; [|left; split; [done|by eexists]].
    case_count; [left; split; [done|by eexists]|by right]. }
  clearbody answer.
  split; [|split; [|split; [|split; [|split; [|split]]]]].
  - destruct Hcases as [[Hle [msg ->]]|[Hlt ->]].
    + simpl. split; [done|lia].
    + destruct (bool_decide_reflect
                  (UPLOADS +:+ "/" +:+ filename row ∈ files w));
        simpl; split; try done; by intros [_ ?].
  - intros Hpos Hf. destruct Hcases as [[Hle _]|[_ ->]]; [lia|].
    by rewrite bool_decide_eq_true_2.
  - intros Hle. destruct Hcases as [[_ [msg ->]]|[Hlt _]]; [done|lia].
  - intros Hpos Hf. destruct Hcases as [[Hle _]|[_ ->]]; [lia|].
    by rewrite bool_decide_eq_false_2.
  - intros t now Hv Ht. unfold valid_token in Hv. simpl in Hv.
    by rewrite Hv, Ht.
  - intros. apply api_download_frame.
  - intros n. induction n as [|n IH]; simpl; [done|].
    rewrite IH. apply api_download_cb_frame.
Qed.

(** C2, as the code runs. Alice has asked for a preview token,
    previewed song 1 and set a password; song 1 is in Calm, its file is
    present, and [alice_issued_token] is the user token she was answered
    with, valid at the time of her download. Her stored count in Calm
    is 0, where a download is to be refused as forbidden: the request is
    answered 500, the count read being the 1 under the key [undefined] and
    [path.join] failing on the file name. With a row that stores a count
    of 3 in Calm and the file present, where a download is to succeed, the
    request is answered 403. Either way the stored state is left as it
    was. Handed the row of the song the callback answers 403 to the first
    and sends the file to the second. *)
Theorem api_download_as_served :
  alice_served = (@handle sample_bcrypt 2
                    (SetPassword (Some (Signed alice_preview_token))
                       (Some "pw") "salt")
                    (@serve sample_bcrypt
                       [ (0, RequestPreview (Some alice));
                         (1, Preview (Some (Signed alice_preview_token)) 1) ]
                       start_world)).2
  ∧ (@handle sample_bcrypt 2
       (SetPassword (Some (Signed alice_preview_token)) (Some "pw") "salt")
       (@serve sample_bcrypt
          [ (0, RequestPreview (Some alice));
            (1, Preview (Some (Signed alice_preview_token)) 1) ]
          start_world)).1
    = ok (Token alice_issued_token)
  ∧ verifyUserToken (Some (Signed alice_issued_token)) 9 = inr (Some alice)
  ∧ calm1 ∈ songs alice_served
  ∧ (UPLOADS +:+ "/" +:+ filename calm1 ∈ files alice_served)
  ∧ count alice_served alice (category calm1) = 0
  ∧ count alice_served alice "undefined" = 1
  ∧ api_download (Some (Signed alice_issued_token)) 1 9 alice_served
    = (caught TypeError_path_not_string, alice_served)
  ∧ kind_of (api_download (Some (Signed alice_issued_token)) 1 9
               alice_served).1 = Some Unexpected
  ∧ api_download_cb (Some alice) false (JsObject calm1) alice_served
    = (error 403 "no preview/download allowance left for this category",
       alice_served)
  ∧ count (world_of {[ "Calm" := 3 ]} {[ "uploads/calm1.mp3" ]}) alice
      (category calm1) = 3
  ∧ api_download (Some (Signed alice_user_token)) 1 5
      (world_of {[ "Calm" := 3 ]} {[ "uploads/calm1.mp3" ]})
    = (error 403 "no preview/download allowance left for this category",
       world_of {[ "Calm" := 3 ]} {[ "uploads/calm1.mp3" ]})
  ∧ api_download_cb (Some alice) false (JsObject calm1)
      (world_of {[ "Calm" := 3 ]} {[ "uploads/calm1.mp3" ]})
    = (ok (Attachment "uploads/calm1.mp3"),
       world_of {[ "Calm" := 3 ]} {[ "uploads/calm1.mp3" ]}).
Proof.
  split; [done|]. split; [by vm_compute|]. split; [by vm_compute|].
  split; [by left|].
  split; [refine (bool_decide_unpack _ _); by vm_compute|].
  repeat split; by vm_compute.
Qed.

(** ** Tokens the server signs *)

(** Every token the server signs with [JWT_SECRET] carries a non-empty
    email, as long as the tokens presented to it do: the email signed is
    one that passed a truthiness test, or the email of the token
    presented. *)
Lemma issued_email_truthy `{Bcrypt} now r w t :
  (∀ t0, request_token r = Some (Signed t0) → jwt_key t0 = JWT_SECRET →
         truthy (jwt_email t0) = true) →
  response_token (handle now r w).1 = Some t →
  jwt_key t = JWT_SECRET →
  truthy (jwt_email t) = true.
Proof.
  intros Hreq. destruct r; simpl in *.
  - unfold api_request_preview. destruct (truthy email) eqn:He; simpl;
      [|done]. run. by intros [= <-].
  - unfold api_pay. destruct previewToken as [token|]; [|done].
    destruct (jwt_verify _ _ _); [|done]. by destruct simulateFail.
  - unfold api_set_password. destruct previewToken as [token|]; [|done].
    destruct (truthy password); simpl; [|done].
    destruct (jwt_verify token JWT_SECRET now) as [p|] eqn:Hv; [|done].
    pose proof (jwt_verify_payload _ _ _ _ Hv) as ->.
    apply jwt_verify_Some in Hv as [Hk _].
    run. destruct (setUserPassword _ _ w). simpl. intros [= <-] _.
    simpl. by apply (Hreq p).
  - unfold api_login. destruct (truthy email) eqn:He; simpl; [|done].
    destruct (truthy password); simpl; [|done]. run.
    destruct (email ≫= _) as [u|]; [|done].
    destruct (negb (truthy (passwordHash u))); [done|].
    destruct (negb (compareSync _ _)); [done|]. by intros [= <-].
  - unfold api_preview.
    destruct (truthy (getEmailFromAuthHeader authorization now)); simpl;
      [|done].
    run. rewrite api_preview_cb_eq by done. case_count; [done|].
    simpl. intros [=].
  - unfold api_download.
    destruct (verifyUserToken authorization now) as [r|e] eqn:Hv.
    + unfold verifyUserToken in Hv. destruct authorization as [token|];
        [|by injection Hv as <-].
      destruct (jwt_verify token JWT_SECRET now);
        [|by injection Hv as <-].
      destruct (negb _); [by injection Hv as <-|done].
    + run. unfold api_download_cb. simpl. run.
      destruct (e ≫= _) as [u|]; [|done].
      destruct (previews u); [|done]. by case_count.
  - unfold api_user_set_password.
    destruct (verifyUserToken authorization now) as [r|e] eqn:Hv.
    + unfold verifyUserToken in Hv. destruct authorization as [token|];
        [|by injection Hv as <-].
      destruct (jwt_verify token JWT_SECRET now);
        [|by injection Hv as <-].
      destruct (negb _); [by injection Hv as <-|done].
    + destruct (truthy password); simpl; [|done]. run.
      by destruct (setUserPassword _ _ w).
  - unfold api_admin_login. destruct (_ && _); [|done]. simpl.
    intros [= <-]. done.
  - unfold api_admin_delete_category.
    destruct (verifyAdmin auth now) as [r|] eqn:Hv.
    + unfold verifyAdmin in Hv. destruct auth as [token|];
        [|by injection Hv as <-].
      destruct (jwt_verify token ADMIN_SECRET now); [done|].
      by injection Hv as <-.
    + by destruct (negb (truthy (Some name))).
Qed.

(** * Further properties of the routes *)

(** ** Lifetime and reach of tokens *)

Lemma jwt_sign_verify email type secret t0 ttl t :
  jwt_verify (Signed (jwt_sign email type secret t0 ttl)) secret t
  = if t <? t0 + ttl then Some (jwt_sign email type secret t0 ttl) else None.
Proof.
  unfold jwt_verify. simpl. by rewrite bool_decide_eq_true_2.
Qed.

(** X1. The token a preview request hands out is accepted, by pay and by
    the preview route's authentication, until 600 seconds after it was
    issued and not from then on; the download route's authentication never
    accepts it, and set-password with it after those 600 seconds answers
    401 and stores nothing. The token a login hands out passes the
    download route's authentication until 604800 seconds (7 days) after
    the login and not from then on. *)
Theorem token_lifetimes `{Bcrypt} e t0 w tok :
  (api_request_preview (Some e) t0 w).1 = ok (PreviewToken tok) →
  (∀ t w', status (api_pay (Some (Signed tok)) false t w').1 = 200
           ↔ t < t0 + 600)
  ∧ (∀ t, getEmailFromAuthHeader (Some (Signed tok)) t = Some e
          ↔ t < t0 + 600)
  ∧ (∀ t, ∃ msg, verifyUserToken (Some (Signed tok)) t = inl (error 401 msg))
  ∧ (∀ t password salt w',
       password ≠ "" →
       t0 + 600 ≤ t →
       api_set_password (Some (Signed tok)) (Some password) salt t w'
       = (error 401 "invalid/expired token", w'))
  ∧ (∀ password w1 tok',
       (api_login (Some e) password t0 w1).1 = ok (Token tok') →
       ∀ t, verifyUserToken (Some (Signed tok')) t = inr (Some e)
            ↔ t < t0 + 604800).
Proof.
  intros Hreq.
  assert (Htok : tok = jwt_sign (Some e) "preview" JWT_SECRET t0 TTL_10m).
  { revert Hreq. unfold api_request_preview.
    destruct (truthy (Some e)); simpl negb; cbv iota; [|done].
    run. by intros [= <-]. }
  subst tok. clear Hreq.
  split; [|split; [|split; [|split]]].
  - intros t w'. unfold api_pay. rewrite jwt_sign_verify.
    unfold TTL_10m. destruct (Z.ltb_spec t (t0 + 600)); simpl; split;
      try done; lia.
  - intros t. unfold getEmailFromAuthHeader. rewrite jwt_sign_verify.
    unfold TTL_10m. destruct (Z.ltb_spec t (t0 + 600)); simpl; split;
      try done; lia.
  - intros t. unfold verifyUserToken. rewrite jwt_sign_verify.
    destruct (t <? t0 + TTL_10m); simpl; by eexists.
  - intros t password salt w' Hp Hlate. unfold api_set_password.
    rewrite jwt_sign_verify. unfold TTL_10m.
    apply truthy_Some in Hp as ->. simpl.
    destruct (Z.ltb_spec t (t0 + 600)); [lia|done].
  - intros password w1 tok'. unfold api_login.
    destruct (negb (truthy (Some e)) || negb (truthy password)); [done|].
    run. destruct (users w1 !! e) as [u|]; [|done].
    destruct (negb (truthy (passwordHash u))); [done|].
    destruct (negb (compareSync _ _)); [done|]. intros [= <-] t.
    unfold verifyUserToken, jwt_verify, TTL_7d. simpl.
    destruct (Z.ltb_spec t (t0 + 604800)); simpl; split; try done; lia.
Qed.

Lemma token_lifetimes_witness :
  status (api_pay (Some (Signed alice_preview_token)) false 599
            start_world).1 = 200
  ∧ getEmailFromAuthHeader (Some (Signed alice_preview_token)) 600 ≠ Some alice.
Proof.
  pose proof (@token_lifetimes sample_bcrypt alice 0 start_world
                alice_preview_token eq_refl) as (Hpay & Hauth & _).
  split.
  - apply Hpay. reflexivity.
  - intros Hacc. apply Hauth in Hacc. discriminate Hacc.
Defined.

(** X2. The two signing secrets keep the token kinds apart: a token
    signed with the server secret, of whatever kind, is turned away by the
    admin check, and a token signed with the admin secret is turned away
    by the preview route's authentication, by the download route's and by
    pay. *)
Theorem secrets_do_not_cross t now :
  (jwt_key t = JWT_SECRET →
   verifyAdmin (Some (Signed t)) now = Some (error 401 "invalid admin token"))
  ∧ (jwt_key t = ADMIN_SECRET →
     getEmailFromAuthHeader (Some (Signed t)) now = None
     ∧ verifyUserToken (Some (Signed t)) now
       = inl (error 401 "invalid/expired token")
     ∧ ∀ simulateFail w,
         api_pay (Some (Signed t)) simulateFail now w
         = (error 401 "invalid or expired preview token", w)).
Proof.
  split; intros Hk.
  - unfold verifyAdmin, jwt_verify. rewrite Hk. done.
  - unfold getEmailFromAuthHeader, verifyUserToken, api_pay, jwt_verify.
    rewrite Hk. done.
Qed.

Lemma secrets_do_not_cross_witness :
  verifyAdmin (Some (Signed alice_user_token)) 5
  = Some (error 401 "invalid admin token").
Proof.
  apply (secrets_do_not_cross alice_user_token 5). reflexivity.
Defined.

(** X3. The admin login answers 200 exactly for the user name [ravi] with
    the password [1234], and 401 otherwise; it never touches the stored
    state. The token it hands out passes the admin check until 604800
    seconds (7 days) after the login and not from then on. *)
Theorem api_admin_login_spec username password now w :
  (api_admin_login username password now w).2 = w
  ∧ (status (api_admin_login username password now w).1 = 200
     ↔ username = Some "ravi" ∧ password = Some "1234")
  ∧ (status (api_admin_login username password now w).1 ≠ 200 →
     (api_admin_login username password now w).1
     = error 401 "invalid admin credentials")
  ∧ (∀ tok,
       (api_admin_login username password now w).1 = ok (Token tok) →
       ∀ t, verifyAdmin (Some (Signed tok)) t = None ↔ t < now + 604800).
Proof.
  unfold api_admin_login.
  destruct (bool_decide_reflect (username = Some "ravi")) as [Hu|Hu];
    destruct (bool_decide_reflect (password = Some "1234")) as [Hp|Hp];
    simpl; (split; [done|]); (split; [split; [done|by intros [? ?]]|]);
    (split; [done|]); try done.
  intros tok [= <-] t. unfold verifyAdmin, jwt_verify. simpl.
  unfold TTL_7d. destruct (Z.ltb_spec t (now + 604800)); simpl; split;
    try done; lia.
Qed.

Lemma api_admin_login_spec_witness :
  verifyAdmin (Some (Signed (jwt_sign_admin ADMIN_SECRET 3 TTL_7d))) 10 = None.
Proof.
  destruct (api_admin_login_spec (Some "ravi") (Some "1234") 3 start_world)
    as (_ & _ & _ & Hadmin).
  apply (Hadmin (jwt_sign_admin ADMIN_SECRET 3 TTL_7d) eq_refl 10).
  reflexivity.
Defined.

(** X4. The preview route serves a request exactly when its bearer token
    is signed with the server secret, unexpired and carries a non-empty
    email, whatever the kind of the token; every other request is
    answered 401 with nothing read or stored, and no served request is
    answered 401. *)
Theorem api_preview_authentication authorization songId now w :
  (truthy (getEmailFromAuthHeader authorization now) = true
   ↔ ∃ t e, authorization = Some (Signed t) ∧ valid_token t now
            ∧ jwt_email t = Some e ∧ e ≠ "")
  ∧ (truthy (getEmailFromAuthHeader authorization now) = false →
     api_preview authorization songId now w
     = (error 401 "authorization required (preview token or user token)",
        w))
  ∧ (truthy (getEmailFromAuthHeader authorization now) = true →
     status (api_preview authorization songId now w).1 ≠ 401).
Proof.
  split; [|split].
  - unfold getEmailFromAuthHeader, valid_token. split.
    + destruct authorization as [token|]; [|done].
      destruct (jwt_verify token JWT_SECRET now) as [p|] eqn:Hv; [|done].
      pose proof (jwt_verify_payload _ _ _ _ Hv) as ->.
      destruct (jwt_email p) as [e|] eqn:He; [|done].
      intros Ht. exists p, e. repeat split; try done.
      by apply truthy_Some.
    + intros (t & e & -> & Hv & He & Hne). rewrite Hv, He.
      by apply truthy_Some.
  - intros Hf. unfold api_preview. by rewrite Hf.
  - intros Ht. unfold api_preview. rewrite Ht. simpl. run.
    rewrite api_preview_cb_eq by done. by case_count.
Qed.

Lemma api_preview_authentication_witness :
  api_preview (Some Garbage) 1 5 start_world
  = (error 401 "authorization required (preview token or user token)",
     start_world).
Proof.
  destruct (api_preview_authentication (Some Garbage) 1 5 start_world)
    as (_ & Hrefused & _).
  apply Hrefused. reflexivity.
Defined.

(** ** What every request keeps *)

Lemma insert_ignore_ne e0 e us :
  e0 ≠ e → insert_ignore e0 us !! e = us !! e.
Proof.
  intros Hne. unfold insert_ignore. destruct (us !! e0); [done|].
  by rewrite lookup_insert_ne.
Qed.

Lemma users_change_row us us' e u :
  users_change us us' →
  us !! e = Some u →
  ∃ u', us' !! e = Some u'
        ∧ (is_Some (passwordHash u) → is_Some (passwordHash u'))
        ∧ (is_Some (previews u) → is_Some (previews u')).
Proof.
  intros Hc Hu.
  assert (Hins : ∀ e0, insert_ignore e0 us !! e = Some u).
  { intros e0. destruct (decide (e0 = e)) as [->|Hne].
    - by rewrite (insert_ignore_present _ _ _ Hu).
    - by rewrite insert_ignore_ne. }
  destruct Hc as [|e0 He0|e0 hash|e0 k He0 Hlt].
  - by exists u.
  - exists u. by rewrite Hins.
  - rewrite lookup_alter. destruct (decide (e0 = e)) as [->|Hne].
    + rewrite Hu. simpl. eexists. split; [done|]. simpl. by split.
    + by exists u.
  - rewrite lookup_alter. destruct (decide (e0 = e)) as [->|Hne].
    + rewrite Hins. simpl. eexists. split; [done|]. simpl. by split.
    + exists u. by rewrite Hins.
Qed.

(** X5. No sequence of requests deletes a user row: a row that exists
    still exists afterwards, a password hash that was set is still set
    (possibly to another hash), and the preview map is still there. *)
Theorem rows_persist `{Bcrypt} rs w e u :
  users w !! e = Some u →
  ∃ u', users (serve rs w) !! e = Some u'
        ∧ (is_Some (passwordHash u) → is_Some (passwordHash u'))
        ∧ (is_Some (previews u) → is_Some (previews u')).
Proof.
  revert w u. induction rs as [|[now r] rs IH]; intros w u Hu; simpl.
  - by exists u.
  - destruct (users_change_row _ _ e u (handle_users_change now r w) Hu)
      as (u1 & Hu1 & Hh1 & Hp1).
    destruct (IH _ _ Hu1) as (u' & Hu' & Hh' & Hp').
    exists u'. split; [done|]. split; intros ?; auto.
Qed.

Lemma rows_persist_witness :
  ∃ u', users (@serve sample_bcrypt
                 [(9, AdminDeleteCategory None "Calm");
                  (10, Login (Some alice) (Some "x"))]
                 (@serve sample_bcrypt alice_session start_world))
          !! alice = Some u'
        ∧ is_Some (passwordHash u').
Proof.
  destruct (@rows_persist sample_bcrypt
              [(9, AdminDeleteCategory None "Calm");
               (10, Login (Some alice) (Some "x"))]
              (@serve sample_bcrypt alice_session start_world) alice
              {| passwordHash := Some "salt$pw";
                 previews := Some {[ "undefined" := 1 ]} |} eq_refl)
    as (u' & Hu' & Hh' & _).
  exists u'. split; [done|]. apply Hh'. by eexists.
Defined.

Lemma previews_bounded_insert_ignore e0 us :
  previews_bounded us → previews_bounded (insert_ignore e0 us).
Proof.
  intros Hb e u. unfold insert_ignore.
  destruct (us !! e0) eqn:Hu0; [apply Hb|].
  destruct (decide (e0 = e)) as [->|Hne].
  - rewrite lookup_insert_eq. intros [= <-]. exists ∅. split; [done|].
    intros c n. by rewrite lookup_empty.
  - rewrite lookup_insert_ne by done. apply Hb.
Qed.

Lemma users_change_bounded us us' :
  users_change us us' → previews_bounded us → previews_bounded us'.
Proof.
  intros [|e0 He0|e0 hash|e0 k He0 Hlt] Hb; [done|..].
  - by apply previews_bounded_insert_ignore.
  - intros e u. rewrite lookup_alter.
    destruct (decide (e0 = e)) as [->|Hne]; [|apply Hb].
    destruct (us !! e) as [u0|] eqn:Hu0; [|done]. simpl. intros [= <-].
    simpl. by apply (Hb e).
  - pose proof (previews_bounded_insert_ignore e0 us Hb) as Hb1.
    intros e u. rewrite lookup_alter.
    destruct (decide (e0 = e)) as [->|Hne]; [|apply Hb1].
    destruct (insert_ignore e us !! e) as [u1|] eqn:Hu1; [|done].
    simpl. intros [= <-]. simpl. eexists. split; [done|].
    destruct (Hb1 e u1 Hu1) as (m & Hm & Hentries).
    simpl in Hlt. rewrite Hm in *.
    intros c n. destruct (decide (k = c)) as [->|Hk].
    + rewrite lookup_insert_eq. intros [= <-].
      destruct (m !! c) as [n0|] eqn:Hc; simpl in *; [|lia].
      specialize (Hentries c n0 Hc). lia.
    + rewrite lookup_insert_ne by done. apply Hentries.
Qed.

(** X6. In every state the server reaches, every user row has a preview
    map, every stored entry lies between 1 and 5, and so the count of
    every user in every category lies between 0 and 5: the preview route
    raises a count by one and only below 5. *)
Theorem reachable_counts_bounded `{Bcrypt} w :
  reachable w →
  (∀ e u, users w !! e = Some u → is_Some (previews u))
  ∧ (∀ e c n, entry w e c = Some n → 1 ≤ n ≤ 5)
  ∧ (∀ e c, 0 ≤ count w e c ≤ 5).
Proof.
  intros Hr.
  assert (Hb : previews_bounded (users w)).
  { induction Hr as [w Hw|w now r _ IH].
    - intros e u. by rewrite Hw, lookup_empty.
    - eapply users_change_bounded; [apply handle_users_change|done]. }
  assert (Hentry : ∀ e c n, entry w e c = Some n → 1 ≤ n ≤ 5).
  { intros e c n. unfold entry.
    destruct (users w !! e) as [u|] eqn:Hu; simpl; [|done].
    destruct (Hb e u Hu) as (m & -> & Hentries). simpl. apply Hentries. }
  split; [|split; [done|]].
  - intros e u Hu. destruct (Hb e u Hu) as (m & -> & _). by eexists.
  - intros e c. rewrite count_entry.
    destruct (entry w e c) as [n|] eqn:He; simpl; [|lia].
    specialize (Hentry e c n He). lia.
Qed.

Lemma reachable_counts_bounded_witness :
  0 ≤ count alice_after_five alice "undefined" ≤ 5.
Proof.
  destruct (@reachable_counts_bounded sample_bcrypt alice_after_five)
    as (_ & _ & Hcount).
  - apply (@alice_scenarios_reachable sample_bcrypt ∅).
  - apply Hcount.
Defined.

Lemma api_pay_frame previewToken simulateFail now w :
  (api_pay previewToken simulateFail now w).2 = w.
Proof.
  unfold api_pay. destruct previewToken as [token|]; [|done].
  destruct (jwt_verify token JWT_SECRET now); [|done].
  by destruct simulateFail.
Qed.

Lemma api_preview_cb_catalogue email song w :
  songs (api_preview_cb email false song w).2 = songs w
  ∧ files (api_preview_cb email false song w).2 = files w.
Proof.
  destruct (js_truthy song) eqn:Hs.
  - rewrite api_preview_cb_eq by done. by case_count.
  - unfold api_preview_cb. by rewrite Hs.
Qed.

Lemma setUserPassword_catalogue email hash w :
  songs (setUserPassword email hash w).2 = songs w
  ∧ files (setUserPassword email hash w).2 = files w.
Proof. by destruct email. Qed.

(** X7. None of the routes for users (preview request, pay,
    set-password, login, preview, download, account) and neither the admin
    login changes the songs table or the files on disk, and a category
    deletion changes them only when it presents a valid admin token and a
    non-empty name. *)
Theorem catalogue_changes_need_admin `{Bcrypt} now r w :
  songs (handle now r w).2 ≠ songs w ∨ files (handle now r w).2 ≠ files w →
  ∃ auth name,
    r = AdminDeleteCategory auth name
    ∧ verifyAdmin auth now = None
    ∧ name ≠ "".
Proof.
  assert (Hsame : ∀ w' : world,
    songs w' = songs w ∧ files w' = files w →
    songs w' ≠ songs w ∨ files w' ≠ files w → False).
  { intros w' [Hs Hf] [Hne|Hne]; by apply Hne. }
  destruct r; simpl; intros Hch.
  - exfalso. apply (Hsame _ (conj eq_refl eq_refl)). revert Hch.
    unfold api_request_preview. by destruct (truthy email).
  - exfalso. revert Hch. rewrite api_pay_frame. by apply Hsame.
  - exfalso. revert Hch. unfold api_set_password.
    destruct previewToken as [token|]; [|by apply Hsame].
    destruct (truthy password); simpl; [|by apply Hsame].
    destruct (jwt_verify _ _ _) as [p|]; [|by apply Hsame].
    run. pose proof (setUserPassword_catalogue (jwt_email p)
                       (hashSync (str password) salt) w) as Hc.
    destruct (setUserPassword _ _ w). by apply Hsame.
  - exfalso. revert Hch. unfold api_login.
    destruct (negb (truthy email) || negb (truthy password));
      [by apply Hsame|].
    run. destruct (email ≫= _) as [u|]; [|by apply Hsame].
    destruct (negb (truthy (passwordHash u))); [by apply Hsame|].
    destruct (negb (compareSync _ _)); by apply Hsame.
  - exfalso. revert Hch. unfold api_preview.
    destruct (truthy (getEmailFromAuthHeader authorization now)); simpl;
      [|by apply Hsame].
    run. apply Hsame, api_preview_cb_catalogue.
  - exfalso. revert Hch. rewrite api_download_frame. by apply Hsame.
  - exfalso. revert Hch. unfold api_user_set_password.
    destruct (verifyUserToken _ _) as [?|email]; [by apply Hsame|].
    destruct (truthy password); simpl; [|by apply Hsame].
    run. pose proof (setUserPassword_catalogue email
                       (hashSync (str password) salt) w) as Hc.
    destruct (setUserPassword _ _ w). by apply Hsame.
  - exfalso. revert Hch. unfold api_admin_login.
    destruct (_ && _); by apply Hsame.
  - revert Hch. unfold api_admin_delete_category.
    destruct (verifyAdmin auth now) as [resp|] eqn:Hv;
      [intros Hch; exfalso; revert Hch; by apply Hsame|].
    destruct (truthy (Some name)) eqn:Hn; simpl;
      [|intros Hch; exfalso; revert Hch; by apply Hsame].
    intros _. exists auth, name. split; [done|]. split; [done|].
    by apply truthy_Some.
Qed.

Lemma catalogue_changes_need_admin_witness :
  ∃ auth name,
    AdminDeleteCategory
      (Some (Signed (jwt_sign_admin ADMIN_SECRET 0 TTL_7d))) "Calm"
    = AdminDeleteCategory auth name
    ∧ verifyAdmin auth 5 = None
    ∧ name ≠ "".
Proof.
  apply (@catalogue_changes_need_admin sample_bcrypt 5
           (AdminDeleteCategory
              (Some (Signed (jwt_sign_admin ADMIN_SECRET 0 TTL_7d))) "Calm")
           start_world).
  left. vm_compute. discriminate.
Defined.

Lemma setUserPassword_other email hash w e :
  email ≠ Some e →
  users (setUserPassword email hash w).2 !! e = users w !! e.
Proof.
  intros Hne. destruct email as [e0|]; simpl; [|done].
  rewrite lookup_alter_ne; [done|congruence].
Qed.

(** X8. A request touches no row but the one of the email it acts for
    (the email in the body of a preview request, the email in the token
    of a set-password, preview or account request): the rows of all other
    emails are the same before and after. *)
Theorem other_rows_untouched `{Bcrypt} now r w e :
  request_email now r ≠ Some e →
  users (handle now r w).2 !! e = users w !! e.
Proof.
  destruct r; simpl; intros Hne.
  - unfold api_request_preview.
    destruct (truthy email) eqn:He; simpl; [|done].
    apply truthy_str in He as [He _]. run.
    apply insert_ignore_ne. congruence.
  - by rewrite api_pay_frame.
  - unfold api_set_password. destruct previewToken as [token|]; [|done].
    destruct (truthy password); simpl; [|done].
    destruct (jwt_verify token JWT_SECRET now) as [p|]; [|done].
    simpl in Hne. run.
    pose proof (setUserPassword_other (jwt_email p)
                  (hashSync (str password) salt) w e Hne) as Ho.
    by destruct (setUserPassword _ _ w).
  - unfold api_login.
    destruct (negb (truthy email) || negb (truthy password)); [done|].
    run. destruct (email ≫= _) as [u|]; [|done].
    destruct (negb (truthy (passwordHash u))); [done|].
    by destruct (negb (compareSync _ _)).
  - unfold api_preview.
    destruct (truthy (getEmailFromAuthHeader authorization now)) eqn:He;
      simpl; [|done].
    apply truthy_str in He as [He _]. run.
    rewrite api_preview_cb_eq by done. case_count; [done|].
    rewrite lookup_alter_ne by congruence.
    apply insert_ignore_ne. congruence.
  - by rewrite api_download_frame.
  - unfold api_user_set_password.
    destruct (verifyUserToken authorization now) as [?|email]; [done|].
    destruct (truthy password); simpl; [|done]. run.
    pose proof (setUserPassword_other email
                  (hashSync (str password) salt) w e Hne) as Ho.
    by destruct (setUserPassword _ _ w).
  - unfold api_admin_login. by destruct (_ && _).
  - unfold api_admin_delete_category. destruct (verifyAdmin _ _); [done|].
    by destruct (negb (truthy (Some name))).
Qed.

Lemma other_rows_untouched_witness :
  users (@handle sample_bcrypt 5
           (SetPassword (Some (Signed alice_preview_token)) (Some "pw") "s")
           (world_of ∅ ∅)).2 !! "b@x.com"
  = users (world_of ∅ ∅) !! "b@x.com".
Proof.
  apply (@other_rows_untouched sample_bcrypt). vm_compute. discriminate.
Defined.

(** ** Login and the account route *)

(** X9. Login never changes the stored state, and it answers 200 only
    when email and password are both supplied, the row of the email
    exists, carries a non-empty hash, and the password matches that hash;
    the token it then hands out is a user-kind token for that email. *)
Theorem api_login_sound `{Bcrypt} email password now w :
  (api_login email password now w).2 = w
  ∧ (status (api_login email password now w).1 = 200 →
     ∃ e p u h,
       email = Some e ∧ e ≠ "" ∧ password = Some p ∧ p ≠ ""
       ∧ users w !! e = Some u ∧ passwordHash u = Some h ∧ h ≠ ""
       ∧ compareSync p h = true
       ∧ (api_login email password now w).1
         = ok (Token (jwt_sign (Some e) "user" JWT_SECRET now TTL_7d))).
Proof.
  unfold api_login.
  destruct (truthy email) eqn:He; simpl; [|done].
  destruct (truthy password) eqn:Hp; simpl; [|done].
  apply truthy_str in He as [He He']. apply truthy_str in Hp as [Hp Hp'].
  run. rewrite He. simpl.
  destruct (users w !! str email) as [u|] eqn:Hu; [|done].
  destruct (truthy (passwordHash u)) eqn:Hh; simpl; [|done].
  apply truthy_str in Hh as [Hh Hh'].
  destruct (compareSync (str password) (str (passwordHash u))) eqn:Hc;
    simpl; [|done].
  split; [done|]. intros _.
  exists (str email), (str password), u, (str (passwordHash u)).
  rewrite <- He. by repeat split.
Qed.

Lemma api_login_sound_witness :
  ∃ e p u h,
    Some alice = Some e ∧ e ≠ "" ∧ Some "pw" = Some p ∧ p ≠ ""
    ∧ users (@serve sample_bcrypt alice_session start_world) !! e = Some u
    ∧ passwordHash u = Some h ∧ h ≠ ""
    ∧ @compareSync sample_bcrypt p h = true
    ∧ (@api_login sample_bcrypt (Some alice) (Some "pw") 9
         (@serve sample_bcrypt alice_session start_world)).1
      = ok (Token (jwt_sign (Some e) "user" JWT_SECRET 9 TTL_7d)).
Proof.
  apply (@api_login_sound sample_bcrypt (Some alice) (Some "pw") 9
           (@serve sample_bcrypt alice_session start_world)).
  by vm_compute.
Defined.

(** X10. The account route changes a password only for the holder of a
    valid user-kind token: any other request to it is answered 401 and
    stores nothing, and one without a password is answered 400 and stores
    nothing. With such a token and a supplied password it stores the new
    hash on the row of the token's email and keeps the row's preview map;
    a login with that email and the new password then succeeds. *)
Theorem api_user_set_password_spec `{Bcrypt} authorization password salt
    now w :
  (status (api_user_set_password authorization password salt now w).1 = 401
   ↔ ∀ email, verifyUserToken authorization now ≠ inr email)
  ∧ (status (api_user_set_password authorization password salt now w).1
       ≠ 200 →
     (api_user_set_password authorization password salt now w).2 = w)
  ∧ (∀ t e u p now',
       authorization = Some (Signed t) → valid_token t now →
       jwt_type t = Some "user" → jwt_email t = Some e → e ≠ "" →
       password = Some p → p ≠ "" →
       users w !! e = Some u →
       (api_user_set_password authorization password salt now w).1
         = ok OkTrue
       ∧ users (api_user_set_password authorization password salt now w).2
           !! e
         = Some {| passwordHash := Some (hashSync p salt);
                   previews := previews u |}
       ∧ (api_login (Some e) (Some p) now'
            (api_user_set_password authorization password salt now w).2).1
         = ok (Token (jwt_sign (Some e) "user" JWT_SECRET now' TTL_7d))).
Proof.
  unfold api_user_set_password.
  destruct (verifyUserToken authorization now) as [resp|email] eqn:Hv.
  - assert (Hresp : status resp = 401).
    { unfold verifyUserToken in Hv. destruct authorization as [token|];
        [|by injection Hv as <-].
      destruct (jwt_verify token JWT_SECRET now);
        [|by injection Hv as <-].
      destruct (negb _); [by injection Hv as <-|done]. }
    split; [|split]; try done.
    intros t e u p now' -> Hvalid Ht He _ _ _ _.
    assert (verifyUserToken (Some (Signed t)) now = inr (jwt_email t))
      by (apply verifyUserToken_inr; by exists t).
    congruence.
  - split; [|split].
    + split.
      * destruct (truthy password); simpl; [|done]. run.
        by destruct (setUserPassword _ _ w).
      * intros Hnone. by destruct (Hnone email).
    + destruct (truthy password); simpl; [|done]. run.
      by destruct (setUserPassword _ _ w).
    + intros t e u p now' -> Hvalid Ht He Hne -> Hp Hu.
      assert (Hinr : verifyUserToken (Some (Signed t)) now
                     = inr (jwt_email t))
        by (apply verifyUserToken_inr; by exists t).
      rewrite Hinr in Hv. injection Hv as <-. rewrite He.
      pose proof (setUserPassword_lookup (Some e) (hashSync p salt) w e u
                    eq_refl Hu) as Hrow.
      pose proof Hp as Hp'. apply truthy_Some in Hp' as ->. simpl str.
      cbv iota. run.
      destruct (setUserPassword (Some e) (hashSync p salt) w)
        as [[] w'] eqn:Hset. simpl in *.
      split; [done|]. split; [done|].
      unfold api_login. pose proof Hne as Hne'.
      apply truthy_Some in Hne' as ->. apply truthy_Some in Hp as ->.
      simpl. run. rewrite Hrow. simpl.
      rewrite (bool_decide_eq_false_2 _ (hashSync_truthy p salt)). simpl.
      by rewrite compareSync_hashSync.
Qed.

Lemma api_user_set_password_spec_witness :
  (@api_login sample_bcrypt (Some alice) (Some "new") 9
     (@api_user_set_password sample_bcrypt (Some (Signed alice_user_token))
        (Some "new") "s" 5 (world_of ∅ ∅)).2).1
  = ok (Token (jwt_sign (Some alice) "user" JWT_SECRET 9 TTL_7d)).
Proof.
  destruct (@api_user_set_password_spec sample_bcrypt
              (Some (Signed alice_user_token)) (Some "new") "s" 5
              (world_of ∅ ∅)) as (_ & _ & Hset).
  apply (Hset alice_user_token alice
           {| passwordHash := None; previews := Some ∅ |} "new" 9);
    try reflexivity; discriminate.
Defined.

(** X11. Asking for a preview token, setting a password with that token
    within its 600 seconds and logging in compose, from any stored state
    and for any non-empty email and password: the preview request is
    answered with a token, set-password with that token is answered 200,
    and the login that follows succeeds with a user-kind token. The row's
    preview map is what it was before (empty if the row is new), and a
    password that does not match the new hash is turned away with 401,
    whatever hash the row had before. *)
Theorem request_set_password_login `{Bcrypt} e p salt t0 t1 t2 w :
  e ≠ "" → p ≠ "" → t1 < t0 + 600 →
  ∃ tok w1 w2,
    api_request_preview (Some e) t0 w = (ok (PreviewToken tok), w1)
    ∧ api_set_password (Some (Signed tok)) (Some p) salt t1 w1
      = (ok (Token (jwt_sign (Some e) "user" JWT_SECRET t1 TTL_7d)), w2)
    ∧ api_login (Some e) (Some p) t2 w2
      = (ok (Token (jwt_sign (Some e) "user" JWT_SECRET t2 TTL_7d)), w2)
    ∧ (∃ u2, users w2 !! e = Some u2
             ∧ passwordHash u2 = Some (hashSync p salt)
             ∧ previews_or_empty (Some u2)
               = previews_or_empty (users w !! e))
    ∧ ∀ q, q ≠ "" → compareSync q (hashSync p salt) = false →
           (api_login (Some e) (Some q) t2 w2).1
           = error 401 "invalid credentials".
Proof.
  intros He Hp Ht.
  set (tok := jwt_sign (Some e) "preview" JWT_SECRET t0 TTL_10m).
  set (w1 := set_users (insert_ignore e (users w)) w).
  assert (Hreq : api_request_preview (Some e) t0 w
                 = (ok (PreviewToken tok), w1)).
  { unfold api_request_preview. pose proof He as He'.
    apply truthy_Some in He' as ->. done. }
  destruct (insert_ignore_lookup e (users w)) as [u1 Hu1].
  assert (Hvalid : valid_token tok t1).
  { apply jwt_verify_Some. simpl. split; [done|]. unfold TTL_10m. lia. }
  assert (Htp : truthy (Some p) = true) by by apply truthy_Some.
  pose proof (api_set_password_valid tok (Some p) salt t1 w1 Hvalid Htp)
    as Hset. simpl jwt_email in Hset. simpl str in Hset.
  set (w2 := (setUserPassword (Some e) (hashSync p salt) w1).2) in *.
  assert (Hrow : users w2 !! e
            = Some {| passwordHash := Some (hashSync p salt);
                      previews := previews u1 |}).
  { subst w2. by apply setUserPassword_lookup. }
  assert (Hlogin : ∀ q, q ≠ "" →
    api_login (Some e) (Some q) t2 w2
    = (if compareSync q (hashSync p salt)
       then ok (Token (jwt_sign (Some e) "user" JWT_SECRET t2 TTL_7d))
       else error 401 "invalid credentials", w2)).
  { intros q Hq. unfold api_login. pose proof He as He'.
    apply truthy_Some in He' as ->. apply truthy_Some in Hq as ->.
    simpl. run. rewrite Hrow. simpl.
    rewrite (bool_decide_eq_false_2 _ (hashSync_truthy p salt)). simpl.
    by destruct (compareSync q (hashSync p salt)). }
  exists tok, w1, w2. split; [done|]. split; [done|]. split.
  { rewrite Hlogin by done. by rewrite compareSync_hashSync. }
  split.
  - eexists. split; [exact Hrow|]. split; [done|].
    rewrite <- (previews_or_empty_insert_ignore e (users w)), Hu1. done.
  - intros q Hq Hc. rewrite Hlogin by done. by rewrite Hc.
Qed.

Lemma request_set_password_login_witness :
  ∃ tok w1 w2,
    api_request_preview (Some alice) 0 start_world
    = (ok (PreviewToken tok), w1)
    ∧ @api_set_password sample_bcrypt (Some (Signed tok)) (Some "pw") "s"
        599 w1
      = (ok (Token (jwt_sign (Some alice) "user" JWT_SECRET 599 TTL_7d)), w2)
    ∧ @api_login sample_bcrypt (Some alice) (Some "pw") 700 w2
      = (ok (Token (jwt_sign (Some alice) "user" JWT_SECRET 700 TTL_7d)),
         w2).
Proof.
  destruct (@request_set_password_login sample_bcrypt alice "pw" "s"
              0 599 700 start_world)
    as (tok & w1 & w2 & Hreq & Hset & Hlogin & _);
    [discriminate|discriminate|reflexivity|].
  by exists tok, w1, w2.
Defined.

(** X12. Only four routes hand out tokens, and each a fixed kind: the
    preview request a preview-kind token for the email in its body, valid
    600 seconds; set-password a user-kind token for the email of the token
    presented, and login a user-kind token for the email in its body,
    both valid 7 days; the admin login an admin token under the admin
    secret, valid 7 days. Pay, preview, download, the account route and
    category deletion never answer with a token. *)
Theorem issued_tokens `{Bcrypt} now r w t :
  response_token (handle now r w).1 = Some t →
  (∃ email, r = RequestPreview email
            ∧ t = jwt_sign email "preview" JWT_SECRET now TTL_10m)
  ∨ (∃ token password salt p,
       r = SetPassword (Some token) password salt
       ∧ jwt_verify token JWT_SECRET now = Some p
       ∧ t = jwt_sign (jwt_email p) "user" JWT_SECRET now TTL_7d)
  ∨ (∃ email password,
       r = Login email password
       ∧ t = jwt_sign email "user" JWT_SECRET now TTL_7d)
  ∨ (r = AdminLogin (Some "ravi") (Some "1234")
     ∧ t = jwt_sign_admin ADMIN_SECRET now TTL_7d).
Proof.
  destruct r; simpl.
  - unfold api_request_preview. destruct (truthy email); simpl; [|done].
    run. intros [= <-]. left. by exists email.
  - unfold api_pay. destruct previewToken as [token|]; [|done].
    destruct (jwt_verify _ _ _); [|done]. by destruct simulateFail.
  - unfold api_set_password. destruct previewToken as [token|]; [|done].
    destruct (truthy password); simpl; [|done].
    destruct (jwt_verify token JWT_SECRET now) as [p|] eqn:Hv; [|done].
    run. destruct (setUserPassword _ _ w). simpl. intros [= <-].
    right; left. by exists token, password, salt, p.
  - unfold api_login.
    destruct (negb (truthy email) || negb (truthy password)); [done|].
    run. destruct (email ≫= _) as [u|]; [|done].
    destruct (negb (truthy (passwordHash u))); [done|].
    destruct (negb (compareSync _ _)); [done|]. intros [= <-].
    right; right; left. by exists email, password.
  - unfold api_preview.
    destruct (truthy (getEmailFromAuthHeader authorization now)); simpl;
      [|done].
    run. rewrite api_preview_cb_eq by done. by case_count.
  - intros Ht. exfalso. revert Ht. unfold api_download.
    destruct (verifyUserToken authorization now) as [resp|e] eqn:Hv.
    + unfold verifyUserToken in Hv. destruct authorization as [token|];
        [|by injection Hv as <-].
      destruct (jwt_verify token JWT_SECRET now);
        [|by injection Hv as <-].
      destruct (negb _); [by injection Hv as <-|done].
    + run. unfold api_download_cb. simpl. run.
      destruct (e ≫= _) as [u|]; [|done].
      destruct (previews u); [|done]. by case_count.
  - intros Ht. exfalso. revert Ht. unfold api_user_set_password.
    destruct (verifyUserToken authorization now) as [resp|e] eqn:Hv.
    + unfold verifyUserToken in Hv. destruct authorization as [token|];
        [|by injection Hv as <-].
      destruct (jwt_verify token JWT_SECRET now);
        [|by injection Hv as <-].
      destruct (negb _); [by injection Hv as <-|done].
    + destruct (truthy password); simpl; [|done]. run.
      by destruct (setUserPassword _ _ w).
  - unfold api_admin_login.
    destruct (bool_decide_reflect (username = Some "ravi")) as [->|];
      destruct (bool_decide_reflect (password = Some "1234")) as [->|];
      simpl; try done.
    intros [= <-]. by repeat right.
  - intros Ht. exfalso. revert Ht. unfold api_admin_delete_category.
    destruct (verifyAdmin auth now) as [resp|] eqn:Hv.
    + unfold verifyAdmin in Hv. destruct auth as [token|];
        [|by injection Hv as <-].
      destruct (jwt_verify token ADMIN_SECRET now); [done|].
      by injection Hv as <-.
    + by destruct (negb (truthy (Some name))).
Qed.

Lemma issued_tokens_witness :
  ∃ email,
    RequestPreview (Some alice) = RequestPreview email
    ∧ alice_preview_token = jwt_sign email "preview" JWT_SECRET 0 TTL_10m.
Proof.
  destruct (@issued_tokens sample_bcrypt 0 (RequestPreview (Some alice))
              start_world alice_preview_token eq_refl)
    as [Hp|[Hs|[Hl|[Ha _]]]]; [done|..].
  - destruct Hs as (? & ? & ? & ? & Hr & _). discriminate Hr.
  - destruct Hl as (? & ? & Hr & _). discriminate Hr.
  - discriminate Ha.
Defined.

(** ** Category deletion *)

(** X13. A category deletion without a valid admin token is answered 401
    and one with an empty name 400, and neither changes anything (category
    names are compared as strings). With a
    valid admin token and a name it removes exactly the songs of that
    category and keeps the others in their order, removes exactly the
    files those songs name (also when a song of another category names
    the same file), leaves the users table and so every preview count as
    it was, and repeating it changes nothing more. *)
Theorem api_admin_delete_category_spec auth name now w :
  (verifyAdmin auth now ≠ None ∨ name = "" →
   (api_admin_delete_category auth name now w).2 = w
   ∧ status (api_admin_delete_category auth name now w).1 ≠ 200)
  ∧ (verifyAdmin auth now = None → name ≠ "" →
     (api_admin_delete_category auth name now w).1 = ok OkTrue
     ∧ users (api_admin_delete_category auth name now w).2 = users w
     ∧ songs (api_admin_delete_category auth name now w).2
       = filter (λ s, category s ≠ name) (songs w)
     ∧ (∀ s, s ∈ songs (api_admin_delete_category auth name now w).2
             ↔ s ∈ songs w ∧ category s ≠ name)
     ∧ (∀ f, f ∈ files (api_admin_delete_category auth name now w).2
             ↔ f ∈ files w
               ∧ ¬ ∃ s, s ∈ songs w ∧ category s = name
                        ∧ f = UPLOADS +:+ "/" +:+ filename s)
     ∧ (api_admin_delete_category auth name now
          (api_admin_delete_category auth name now w).2).2
       = (api_admin_delete_category auth name now w).2).
Proof.
  unfold api_admin_delete_category.
  destruct (verifyAdmin auth now) as [resp|] eqn:Hv.
  - split; [|done]. intros _. split; [done|].
    unfold verifyAdmin in Hv. destruct auth as [token|];
      [|by injection Hv as <-].
    destruct (jwt_verify token ADMIN_SECRET now); [done|].
    by injection Hv as <-.
  - destruct (truthy (Some name)) eqn:Hn; simpl negb; cbv iota.
    + apply truthy_Some in Hn. split; [by intros [|]|]. intros _ _.
      run. split; [done|]. split; [done|]. split; [done|].
      split; [|split].
      * intros s. rewrite list_elem_of_filter. by split; intros [? ?].
      * intros f. rewrite elem_of_difference, elem_of_list_to_set,
          list_elem_of_fmap.
        split; intros [Hf Hnot]; (split; [done|]).
        -- intros (s & Hs & Hc & ->). apply Hnot. exists s.
           split; [done|]. apply list_elem_of_filter. by split.
        -- intros (s & -> & Hs). apply list_elem_of_filter in Hs as [Hc Hs].
           apply Hnot. by exists s.
      * f_equal.
        -- rewrite list_filter_filter. apply list_filter_iff.
           intros s. by split; [intros [? ?]|intros ?].
        -- assert (Hnil : filter (λ s, category s = name)
                     (filter (λ s, category s ≠ name) (songs w)) = []).
           { induction (songs w) as [|s l IH]; [done|].
             rewrite (filter_cons (λ s, category s ≠ name)).
             destruct (decide (category s ≠ name)) as [Hne|_]; [|done].
             rewrite filter_cons. by rewrite decide_False. }
           rewrite Hnil. simpl. apply difference_empty_L.
    + split; [|by intros _ Hne; apply truthy_Some in Hne; congruence].
      by intros _.
Qed.

Lemma api_admin_delete_category_spec_witness :
  songs (api_admin_delete_category
           (Some (Signed (jwt_sign_admin ADMIN_SECRET 0 TTL_7d))) "Calm" 5
           start_world).2 = [happy1].
Proof.
  destruct (api_admin_delete_category_spec
              (Some (Signed (jwt_sign_admin ADMIN_SECRET 0 TTL_7d))) "Calm" 5
              start_world) as (_ & Hdel).
  destruct Hdel as (_ & _ & Hsongs & _); [reflexivity|discriminate|].
  rewrite Hsongs. reflexivity.
Defined.

(** ** The gate of the preview callback, over repeated previews *)

(** X14. Handed the row of a song again and again, each call run to its
    end before the next, the callback of the preview route counts up to 5
    and then stops, for a row whose category is not the name of a member
    of [Object.prototype]: after [n] calls the user's count for the row's
    category is the count before plus [n], capped at 5, the counts of all
    other categories are what they were, and every call made once the
    count is 5 is answered 403. *)
Theorem api_preview_cb_saturates email row n w :
  category row ∉ Object_prototype_names →
  count w email (category row) ≤ 5 →
  count
    (Nat.iter n (λ w0, (api_preview_cb email false (JsObject row) w0).2) w)
    email (category row)
  = Z.min (count w email (category row) + Z.of_nat n) 5
  ∧ (∀ c, c ≠ category row →
       count
         (Nat.iter n
            (λ w0, (api_preview_cb email false (JsObject row) w0).2) w)
         email c
       = count w email c)
  ∧ (5 ≤ count w email (category row) + Z.of_nat n →
     status
       (api_preview_cb email false (JsObject row)
          (Nat.iter n
             (λ w0, (api_preview_cb email false (JsObject row) w0).2) w)).1
     = 403).
Proof.
  intros Hown Hle.
  assert (Hiter : ∀ k : nat,
    count
      (Nat.iter k (λ w0, (api_preview_cb email false (JsObject row) w0).2) w)
      email (category row)
    = Z.min (count w email (category row) + Z.of_nat k) 5
    ∧ ∀ c, c ≠ category row →
        count
          (Nat.iter k
             (λ w0, (api_preview_cb email false (JsObject row) w0).2) w)
          email c
        = count w email c).
  { induction k as [|k [IHc IHo]]; [split; [simpl; lia|done]|].
    rewrite Nat.iter_succ.
    set (wk := Nat.iter k
           (λ w0, (api_preview_cb email false (JsObject row) w0).2) w) in *.
    destruct (api_preview_cb_on_row email row wk Hown) as [Hfull Hbelow].
    destruct (Z_lt_le_dec (count wk email (category row)) 5) as [Hlt|Hge].
    - destruct (Hbelow Hlt) as (Hinc & Hoth & _). split.
      + rewrite Hinc, IHc. lia.
      + intros c Hc. by rewrite Hoth, IHo.
    - rewrite (Hfull Hge). simpl. split.
      + rewrite IHc. lia.
      + done. }
  destruct (Hiter n) as [Hc Ho]. split; [done|]. split; [done|].
  intros Hreach.
  destruct (api_preview_cb_on_row email row
              (Nat.iter n
                 (λ w0, (api_preview_cb email false (JsObject row) w0).2) w)
              Hown)
    as [Hfull _].
  rewrite Hfull; [done|]. rewrite Hc. lia.
Qed.

Lemma api_preview_cb_saturates_witness :
  count
    (Nat.iter 7 (λ w0, (api_preview_cb alice false (JsObject calm1) w0).2)
       (world_of {[ "Calm" := 2 ]} ∅))
    alice "Calm" = 5.
Proof.
  destruct (api_preview_cb_saturates alice calm1 7
              (world_of {[ "Calm" := 2 ]} ∅)) as (Hcount & _).
  - refine (bool_decide_unpack _ _). by vm_compute.
  - by vm_compute.
  - etrans; [exact Hcount|reflexivity].
Defined.

(** ** Cover images *)

Lemma pool_table_ok :
  Forall (λ kv : string * list string,
            kv.1 ≠ "" ∧ kv.2 ≠ [] ∧ Forall (λ x, x ∈ flatten) kv.2
            ∧ pool_get kv.1 = Some kv.2) POOL.
Proof. refine (bool_decide_unpack _ _). by vm_compute. Qed.

Lemma pool_key_ok k :
  k ∈ pool_keys →
  k ≠ "" ∧ ∃ arr, pool_get k = Some arr ∧ arr ≠ []
                  ∧ ∀ x, x ∈ arr → x ∈ flatten.
Proof.
  unfold pool_keys. intros ([k' arr] & -> & Hin)%list_elem_of_fmap.
  pose proof (proj1 (Forall_forall _ _) pool_table_ok _ Hin)
    as (Hk & Harr & Hall & Hget).
  split; [done|]. exists arr. split; [done|]. split; [done|].
  by apply Forall_forall.
Qed.

Lemma prefix_spec p t : String.prefix p t = true ↔ ∃ b, t = p +:+ b.
Proof.
  revert t. induction p as [|c p IH]; intros t.
  - split; [intros _; by exists t|by destruct t].
  - destruct t as [|d t].
    + split; [done|]. intros [b Hb]. discriminate Hb.
    + change (String.prefix (String c p) (String d t))
        with (if Ascii.ascii_dec c d then String.prefix p t else false).
      destruct (Ascii.ascii_dec c d) as [->|Hne].
      * rewrite IH. split; intros [b Hb]; exists b.
        -- change (String d t = String d (p +:+ b)). by rewrite Hb.
        -- change (String d t = String d (p +:+ b)) in Hb. congruence.
      * split; [done|]. intros [b Hb].
        change (String d t = String c (p +:+ b)) in Hb. congruence.
Qed.

Lemma includes_spec s sub :
  includes s sub = true ↔ ∃ a b, s = a +:+ sub +:+ b.
Proof.
  induction s as [|c s IH].
  - change (includes "" sub) with (String.prefix sub "" || false).
    rewrite orb_false_r, prefix_spec. split.
    + intros [b Hb]. by exists "", b.
    + intros (a & b & Hab). destruct a as [|c a]; [by exists b|].
      discriminate Hab.
  - change (includes (String c s) sub)
      with (String.prefix sub (String c s) || includes s sub).
    rewrite orb_true_iff, prefix_spec, IH. split.
    + intros [[b Hb]|(a & b & Hab)].
      * by exists "", b.
      * exists (String c a), b.
        change (String c s = String c (a +:+ sub +:+ b)). by rewrite Hab.
    + intros (a & b & Hab). destruct a as [|c' a].
      * left. by exists b.
      * right. exists a, b.
        change (String c s = String c' (a +:+ sub +:+ b)) in Hab. congruence.
Qed.

Section PoolProperties.

Variable toLowerCase : string → string.
Variable floor_random : nat → nat.
Hypothesis floor_random_lt : ∀ n, (0 < n)%nat → (floor_random n < n)%nat.

Lemma getRandomFromArray_elem arr :
  arr ≠ [] →
  ∃ x, getRandomFromArray floor_random arr = Some x ∧ x ∈ arr.
Proof.
  intros Hne. unfold getRandomFromArray.
  assert (Hlt : (floor_random (length arr) < length arr)%nat).
  { apply floor_random_lt. destruct arr; [done|simpl; lia]. }
  destruct (lookup_lt_is_Some_2 _ _ Hlt) as [x Hx].
  exists x. split; [done|]. by eapply list_elem_of_lookup_2.
Qed.

Lemma getRandomFromArray_key k :
  k ∈ pool_keys →
  ∃ arr x, pool_get k = Some arr
           ∧ getRandomFromArray floor_random (default [] (pool_get k))
             = Some x
           ∧ x ∈ arr ∧ x ∈ flatten.
Proof.
  intros Hk. destruct (pool_key_ok k Hk) as (_ & arr & Hget & Hne & Hall).
  destruct (getRandomFromArray_elem arr Hne) as (x & Hx & Hin).
  exists arr, x. rewrite Hget. simpl. repeat split; try done. by apply Hall.
Qed.

(** X15. Whatever the category (also a missing or empty one, or one no
    key matches) and whatever index is drawn below the length of the
    array, the cover chosen for a category is one of the URLs of the
    pool: the function never returns [undefined]. *)
Theorem getRandomImageForCategory_in_pool category :
  ∃ url,
    getRandomImageForCategory toLowerCase floor_random category = Some url
    ∧ url ∈ flatten.
Proof.
  unfold getRandomImageForCategory.
  assert (Hloop : ∀ f : string → bool,
    ∃ url,
      match List.find f pool_keys with
      | Some k => getRandomFromArray floor_random (default [] (pool_get k))
      | None =>
          getRandomFromArray floor_random
            (match pool_get "Default" with
             | Some arr => arr
             | None => flatten
             end)
      end = Some url ∧ url ∈ flatten).
  { intros f. destruct (List.find f pool_keys) as [k|] eqn:Hfind.
    - apply find_some in Hfind as [Hin _]. apply list_elem_of_In in Hin.
      destruct (getRandomFromArray_key k Hin) as (arr & x & _ & Hx & _ & Hf).
      by exists x.
    - assert (Hd : "Default" ∈ pool_keys)
        by (refine (bool_decide_unpack _ _); by vm_compute).
      destruct (pool_key_ok _ Hd) as (_ & arr & Hget & Hne & Hall).
      rewrite Hget.
      destruct (getRandomFromArray_elem arr Hne) as (x & Hx & Hin).
      exists x. split; [done|]. by apply Hall. }
  destruct (truthy category); simpl negb; cbv iota.
  - match goal with
    | |- context [truthy (List.find ?f pool_keys)] =>
        destruct (List.find f pool_keys) as [k|] eqn:Hfind
    end; [|apply Hloop].
    destruct (truthy (Some k)); [|apply Hloop].
    apply find_some in Hfind as [Hin _]. apply list_elem_of_In in Hin.
    destruct (getRandomFromArray_key k Hin) as (arr & x & _ & Hx & _ & Hf).
    by exists x.
  - assert (Hne : flatten ≠ []) by done.
    destruct (getRandomFromArray_elem flatten Hne) as (x & Hx & Hin).
    by exists x.
Qed.

(** X16. A category that equals a key of the pool up to letter case gets
    a cover from that key's own list, also when other keys occur inside
    it; a category that equals no key up to case and contains no key gets
    a cover from the [Default] list. Lower-casing is taken to keep the
    sixteen keys distinct. *)
Theorem getRandomImageForCategory_by_key c :
  NoDup (toLowerCase <$> pool_keys) →
  c ≠ "" →
  (∀ k, k ∈ pool_keys → toLowerCase k = toLowerCase c →
        ∃ arr url,
          pool_get k = Some arr
          ∧ getRandomImageForCategory toLowerCase floor_random (Some c)
            = Some url
          ∧ url ∈ arr)
  ∧ ((∀ k, k ∈ pool_keys →
           toLowerCase k ≠ toLowerCase c
           ∧ includes (toLowerCase c) (toLowerCase k) = false) →
     ∃ arr url,
       pool_get "Default" = Some arr
       ∧ getRandomImageForCategory toLowerCase floor_random (Some c)
         = Some url
       ∧ url ∈ arr).
Proof.
  intros Hnd Hc. unfold getRandomImageForCategory.
  pose proof Hc as Hc'. apply truthy_Some in Hc' as ->. simpl negb.
  cbv iota zeta. change (str (Some c)) with c. split.
  - intros k Hk Heq.
    destruct (List.find
                (λ k0, bool_decide (toLowerCase k0 = toLowerCase c))
                pool_keys) as [k'|] eqn:Hfind.
    + apply find_some in Hfind as [Hin' Heq'].
      apply list_elem_of_In in Hin'. apply bool_decide_eq_true in Heq'.
      assert (k' = k) as ->.
      { assert (Hinj : ∀ l : list string, NoDup (toLowerCase <$> l) →
                  k' ∈ l → k ∈ l → k' = k).
        { induction l as [|a l IH]; [by intros _ ?%elem_of_nil|].
          rewrite fmap_cons, NoDup_cons, !elem_of_cons.
          intros [Hnotin Hnd'] [->|Hin1] [->|Hin2]; try done.
          - exfalso. apply Hnotin. rewrite Heq', <- Heq.
            by apply list_elem_of_fmap_2.
          - exfalso. apply Hnotin. rewrite Heq, <- Heq'.
            by apply list_elem_of_fmap_2.
          - by apply IH. }
        by apply (Hinj pool_keys). }
      destruct (pool_key_ok k Hk) as (Hne & _).
      apply truthy_Some in Hne. rewrite Hne. change (str (Some k)) with k.
      destruct (getRandomFromArray_key k Hk) as (arr & x & Hget & Hx & Hin & _).
      by exists arr, x.
    + exfalso. eapply find_none in Hfind; [|by apply list_elem_of_In].
      by apply bool_decide_eq_false in Hfind.
  - intros Hnone.
    assert (Hf1 : List.find
                    (λ k0, bool_decide (toLowerCase k0 = toLowerCase c))
                    pool_keys = None).
    { destruct (List.find _ pool_keys) as [k'|] eqn:Hfind; [|done].
      apply find_some in Hfind as [Hin' Heq'].
      apply list_elem_of_In in Hin'. apply bool_decide_eq_true in Heq'.
      by destruct (Hnone k' Hin'). }
    assert (Hf2 : List.find
                    (λ k0, includes (toLowerCase c) (toLowerCase k0))
                    pool_keys = None).
    { destruct (List.find
                  (λ k0, includes (toLowerCase c) (toLowerCase k0))
                  pool_keys) as [k'|] eqn:Hfind; [|done].
      apply find_some in Hfind as [Hin' Hinc].
      apply list_elem_of_In in Hin'.
      destruct (Hnone k' Hin') as [_ Hfalse]. congruence. }
    rewrite Hf1, Hf2. change (truthy None) with false. cbv iota.
    assert (Hd : "Default" ∈ pool_keys)
      by (refine (bool_decide_unpack _ _); by vm_compute).
    destruct (pool_key_ok _ Hd) as (_ & arr & Hget & Hne & _).
    rewrite Hget.
    destruct (getRandomFromArray_elem arr Hne) as (x & Hx & Hin).
    by exists arr, x.
Qed.

End PoolProperties.

Lemma getRandomImageForCategory_in_pool_witness :
  ∃ url,
    getRandomImageForCategory lower (λ n, (n - 1)%nat) (Some "Lofi beats")
    = Some url
    ∧ url ∈ flatten.
Proof.
  apply (getRandomImageForCategory_in_pool lower (λ n, (n - 1)%nat)).
  intros n Hn. cbv beta. lia.
Defined.

Lemma getRandomImageForCategory_by_key_witness :
  ∃ arr url,
    pool_get "Rock" = Some arr
    ∧ getRandomImageForCategory lower (λ n, (n - 1)%nat) (Some "ROCK")
      = Some url
    ∧ url ∈ arr.
Proof.
  destruct (getRandomImageForCategory_by_key lower (λ n, (n - 1)%nat)
              ltac:(intros n Hn; cbv beta; lia) "ROCK") as [Hexact _].
  - refine (bool_decide_unpack _ _). by vm_compute.
  - discriminate.
  - apply (Hexact "Rock").
    + refine (bool_decide_unpack _ _). by vm_compute.
    + reflexivity.
Defined.

(** ** Category listings *)

Lemma Set_of_spec l :
  NoDup (Set_of l) ∧ ∀ x, x ∈ Set_of l ↔ x ∈ l.
Proof.
  unfold Set_of.
  assert (Hgen : ∀ acc : list string,
    NoDup acc →
    NoDup (fold_left
             (λ acc x, if bool_decide (x ∈ acc) then acc else acc ++ [x])
             l acc)
    ∧ ∀ x, x ∈ fold_left
                 (λ acc x, if bool_decide (x ∈ acc) then acc else acc ++ [x])
                 l acc
           ↔ x ∈ acc ∨ x ∈ l).
  { induction l as [|a l IH]; intros acc Hacc; simpl.
    - split; [done|]. intros x. rewrite elem_of_nil.
      split; [by left|by intros [|]].
    - destruct (bool_decide_reflect (a ∈ acc)) as [Hin|Hnotin].
      + destruct (IH acc Hacc) as [Hnd Hmem]. split; [done|].
        intros x. rewrite Hmem, elem_of_cons.
        split; [intros [|]; auto|intros [|[->|]]; auto].
      + assert (Hacc' : NoDup (acc ++ [a])).
        { apply NoDup_app. split; [done|]. split; [|apply NoDup_singleton].
          intros x Hx ->%list_elem_of_singleton. done. }
        destruct (IH _ Hacc') as [Hnd Hmem]. split; [done|].
        intros x. rewrite Hmem, elem_of_app, list_elem_of_singleton,
          elem_of_cons.
        split; [intros [[|]|]; auto|intros [|[|]]; auto]. }
  destruct (Hgen [] (NoDup_nil_2)) as [Hnd Hmem]. split; [done|].
  intros x. rewrite Hmem, elem_of_nil. split; [by intros [|]|by right].
Qed.

Lemma sort_insert_perm {A} (cmp : A → A → Z) x l :
  sort_insert cmp x l ≡ₚ x :: l.
Proof.
  induction l as [|y l IH]; simpl; [done|].
  destruct (cmp x y <=? 0); [done|]. rewrite IH. apply Permutation_swap.
Qed.

Lemma sort_by_perm {A} (cmp : A → A → Z) l : sort_by cmp l ≡ₚ l.
Proof.
  unfold sort_by. induction l as [|x l IH]; simpl; [done|].
  by rewrite sort_insert_perm, IH.
Qed.

Lemma sort_by_sorted {A} (cmp : A → A → Z) l :
  (∀ a b, cmp a b ≤ 0 ∨ cmp b a ≤ 0) →
  Sorted (λ a b, cmp a b ≤ 0) (sort_by cmp l).
Proof.
  intros Htotal.
  assert (Hins : ∀ x l0, Sorted (λ a b, cmp a b ≤ 0) l0 →
                         Sorted (λ a b, cmp a b ≤ 0) (sort_insert cmp x l0)).
  { intros x l0 Hs. induction Hs as [|y l0 Hs IH Hhd]; simpl.
    - by repeat constructor.
    - destruct (Z.leb_spec (cmp x y) 0) as [Hle|Hgt].
      + constructor; [by constructor|]. by constructor.
      + constructor; [done|].
        destruct l0 as [|z l0]; simpl.
        * constructor. destruct (Htotal x y); lia.
        * inversion Hhd; subst.
          destruct (cmp x z <=? 0); constructor; [|done].
          destruct (Htotal x y); lia. }
  unfold sort_by. induction l as [|x l IH]; simpl; [constructor|].
  by apply Hins.
Qed.

Lemma filter_Boolean_spec l x :
  x ∈ filter_Boolean l ↔ x ≠ "" ∧ Some x ∈ l.
Proof.
  unfold filter_Boolean. rewrite list_elem_of_omap. split.
  - intros (v & Hv & Hx). destruct (truthy v) eqn:Ht; [|done].
    apply truthy_str in Ht as [Hs Hne]. injection Hx as <-.
    split; [done|]. by rewrite <- Hs.
  - intros [Hne Hin]. exists (Some x). split; [done|].
    apply truthy_Some in Hne. by rewrite Hne.
Qed.

Section ListingProperties.

Variable trim : string → string.
Variable localeCompare : string → string → Z.

(** X17. The public category listing has no duplicates and holds exactly
    the non-empty trimmed names that come from a registry row or from a
    song; a NULL name or category is listed under what [String(null)]
    trims to; and with a comparison that orders any two names one way or
    the other the listing is sorted by it. *)
Theorem api_categories_spec rows rows2 :
  NoDup (api_categories trim localeCompare rows rows2)
  ∧ (∀ x, x ∈ api_categories trim localeCompare rows rows2
          ↔ x ≠ "" ∧ ∃ r, (r ∈ rows ∨ r ∈ rows2) ∧ trim (String_of r) = x)
  ∧ (None ∈ rows ++ rows2 → trim "null" ≠ "" →
     trim "null" ∈ api_categories trim localeCompare rows rows2)
  ∧ ((∀ a b, localeCompare a b ≤ 0 ∨ localeCompare b a ≤ 0) →
     Sorted (λ a b, localeCompare a b ≤ 0)
       (api_categories trim localeCompare rows rows2)).
Proof.
  unfold api_categories.
  set (names := filter_Boolean ((λ r, Some (trim (String_of r))) <$> rows)
                ++ filter_Boolean
                     ((λ r, Some (trim (String_of r))) <$> rows2)).
  destruct (Set_of_spec names) as [Hnd Hmem].
  assert (Hin : ∀ x, x ∈ sort_by localeCompare (Set_of names)
                     ↔ x ≠ "" ∧ ∃ r, (r ∈ rows ∨ r ∈ rows2)
                                     ∧ trim (String_of r) = x).
  { intros x. rewrite sort_by_perm, Hmem. unfold names.
    rewrite elem_of_app, !filter_Boolean_spec, !list_elem_of_fmap.
    split.
    - intros [[Hne (r & [= ->] & Hr)]|[Hne (r & [= ->] & Hr)]];
        (split; [done|]); exists r; auto.
    - intros [Hne (r & [Hr|Hr] & <-)]; [left|right];
        (split; [done|]); by exists r. }
  split; [by rewrite sort_by_perm|]. split; [done|]. split.
  - intros Hnull Hne. apply Hin. split; [done|]. exists None.
    split; [by apply elem_of_app|done].
  - intros Htotal. by apply sort_by_sorted.
Qed.

(** What the loop over the song categories adds to the registry rows. *)
Lemma merge_song_categories_spec fromSongs fromTable names :
  ∃ extra,
    (merge_song_categories fromSongs fromTable names).1
    = fromTable ++ ((λ s, (None, s)) <$> extra)
    ∧ NoDup extra
    ∧ ∀ s, s ∈ extra ↔ s ∈ fromSongs ∧ s ∉ names.
Proof.
  unfold merge_song_categories.
  revert fromTable names.
  induction fromSongs as [|a l IH]; intros fromTable names; simpl.
  - exists []. rewrite app_nil_r. split; [done|]. split; [constructor|].
    intros s. rewrite !elem_of_nil. split; [done|by intros [? _]].
  - destruct (bool_decide_reflect (a ∈ names)) as [Hin|Hnotin]; simpl.
    + destruct (IH fromTable names) as (extra & Heq & Hnd & Hmem).
      exists extra. split; [done|]. split; [done|].
      intros s. rewrite Hmem, elem_of_cons.
      split; [intros [? ?]; by split; [right|]|].
      intros [[->|Hs] Hn]; [done|by split].
    + destruct (IH (fromTable ++ [(None, a)]) (names ∪ {[ a ]}))
        as (extra & Heq & Hnd & Hmem).
      exists (a :: extra). split; [|split].
      * rewrite Heq, <- app_assoc. done.
      * constructor; [|done]. rewrite Hmem, elem_of_union.
        intros [_ Hn]. apply Hn. right. by apply elem_of_singleton.
      * intros s. rewrite elem_of_cons, Hmem, elem_of_cons.
        split.
        -- intros [->|[Hs Hn]]; [by split; [left|]|].
           split; [by right|]. intros Hin. apply Hn, elem_of_union. by left.
        -- intros [[->|Hs] Hn]; [by left|].
           destruct (decide (s = a)) as [->|Hne]; [by left|].
           right. split; [done|]. rewrite elem_of_union, elem_of_singleton.
           by intros [|].
Qed.

(** X18. The admin category listing is the registry rows, each kept with
    its id, together with one entry with a null id for every non-empty
    category that some song uses and no registry row names; a category
    used by several songs is added once, and with a comparison that
    orders any two names one way or the other the listing is sorted by
    name. *)
Theorem api_admin_categories_spec rows rows2 :
  (∃ extra,
     api_admin_categories localeCompare rows rows2
     ≡ₚ ((λ r, (Some r.1, r.2)) <$> rows) ++ ((λ s, (None, s)) <$> extra)
     ∧ NoDup extra
     ∧ ∀ s, s ∈ extra ↔ s ≠ "" ∧ Some s ∈ rows2 ∧ s ∉ (snd <$> rows))
  ∧ (∀ id name, (Some id, name) ∈ api_admin_categories localeCompare
                                    rows rows2
                ↔ (id, name) ∈ rows)
  ∧ (∀ name, (None, name) ∈ api_admin_categories localeCompare rows rows2
             ↔ name ≠ "" ∧ Some name ∈ rows2 ∧ name ∉ (snd <$> rows))
  ∧ ((∀ a b, localeCompare a b ≤ 0 ∨ localeCompare b a ≤ 0) →
     Sorted (λ a b, localeCompare a.2 b.2 ≤ 0)
       (api_admin_categories localeCompare rows rows2)).
Proof.
  unfold api_admin_categories.
  destruct (merge_song_categories_spec (filter_Boolean rows2)
              ((λ r, (Some r.1, r.2)) <$> rows)
              (list_to_set (snd <$> ((λ r, (Some r.1, r.2)) <$> rows))))
    as (extra & Heq & Hnd & Hmem).
  rewrite Heq.
  assert (Hextra : ∀ s, s ∈ extra
                        ↔ s ≠ "" ∧ Some s ∈ rows2 ∧ s ∉ (snd <$> rows)).
  { intros s. rewrite Hmem, filter_Boolean_spec, elem_of_list_to_set.
    rewrite <- list_fmap_compose.
    assert (Hfun : (snd ∘ (λ r : Z * string, (Some r.1, r.2)) <$> rows)
                   = (snd <$> rows)) by by apply list_fmap_ext.
    rewrite Hfun. split; [by intros [[? ?] ?]|by intros (? & ? & ?)]. }
  split; [|split; [|split]].
  - exists extra. split; [apply sort_by_perm|]. by split.
  - intros id name. rewrite sort_by_perm, elem_of_app, !list_elem_of_fmap.
    split.
    + intros [([id' name'] & [= -> ->] & Hr)|(s & [=] & _)]. done.
    + intros Hr. left. by exists (id, name).
  - intros name. rewrite sort_by_perm, elem_of_app. split.
    + intros [([id' name'] & [=] & _)%list_elem_of_fmap
             |(s & [= ->] & Hs)%list_elem_of_fmap].
      by apply Hextra.
    + intros Hs. right. apply list_elem_of_fmap. exists name.
      split; [done|]. by apply Hextra.
  - intros Htotal. apply (sort_by_sorted (λ a b, localeCompare a.2 b.2)).
    intros a b. apply Htotal.
Qed.

End ListingProperties.

Lemma api_categories_spec_witness :
  "null" ∈ api_categories (λ s, s) compare_strings
             [Some "Rock"] [Some "Calm"; None].
Proof.
  destruct (api_categories_spec (λ s, s) compare_strings
              [Some "Rock"] [Some "Calm"; None]) as (_ & _ & Hnull & _).
  apply Hnull; [|discriminate].
  refine (bool_decide_unpack _ _). by vm_compute.
Defined.

Lemma api_admin_categories_spec_witness :
  (None, "Calm") ∈ api_admin_categories compare_strings
                     [(1, "Rock")] [Some "Calm"; Some "Rock"; Some "Calm"].
Proof.
  destruct (api_admin_categories_spec compare_strings
              [(1, "Rock")] [Some "Calm"; Some "Rock"; Some "Calm"])
    as (_ & _ & Hnull & _).
  apply Hnull. split; [discriminate|]. split.
  - refine (bool_decide_unpack _ _). by vm_compute.
  - refine (bool_decide_unpack _ _). by vm_compute.
Defined.
